(** * ezdxf._acis.entities: the ACIS entity graph loader

    A shallow embedding of [src/ezdxf/_acis/entities.py].  Python objects
    live in an explicit store: an entity node is a cell of the loader's
    [heap], and a reference to it is the index of that cell, so that
    "is the same object" is equality of references.  A node is its class
    together with its instance dictionary: every assignment to an attribute,
    by the loader or by a [parse] method, is a store into that dictionary,
    and a read falls back to the class.  The loader's [entities] dictionary
    keeps Python's insertion order, because [bodies] iterates over its
    values. *)

From Stdlib Require Import ZArith String.
From Stdlib.Strings Require Import Byte.
From stdpp Require Import base option list gmap strings.

(** ** Values and exceptions *)

(** The argument of [load] is an arbitrary Python object; only its runtime
    type matters to the dispatch. *)
Inductive PyObject :=
| PyBytes (b : list byte)
| PyByteArray (b : list byte)
| PyStr (s : string)
| PyInt (z : Z)
| PyBool (b : bool)
| PyNone.

(** [type(data)] as it is printed inside an f-string. *)
Definition type_repr (data : PyObject) : string :=
  match data with
  | PyBytes _ => "<class 'bytes'>"
  | PyByteArray _ => "<class 'bytearray'>"
  | PyStr _ => "<class 'str'>"
  | PyInt _ => "<class 'int'>"
  | PyBool _ => "<class 'bool'>"
  | PyNone => "<class 'NoneType'>"
  end.

(** Exceptions that cross the loader.  [FormatError] stands for whatever the
    tokenizers and the data parsers raise on malformed input. *)
Inductive exn :=
| TypeError (msg : string)
| FormatError (msg : string)
| AttributeError (msg : string).

(** A reference to an entity node: its address in the heap. *)
Abbreviation Ref := nat (only parsing).

(** ** Records produced by the tokenizers *)

(** Modelled from the spec: the tokenizer modules [sab] and [sat] are not part
    of the sources.  A record's [attributes] is either the null-pointer
    sentinel or a pointer to another record, given by that record's identity
    and name. *)
Inductive RecordPtr :=
| NullPtr
| Ptr (target_uid : nat) (target_name : string).

Definition is_null_ptr (p : RecordPtr) : bool :=
  match p with
  | NullPtr => true
  | Ptr _ _ => false
  end.

(** Modelled from the spec: a flat record.  [r_uid] is [id(record)], the
    identity of the record object; [r_id] is the numeric id stored in the
    file; [T] is the type of the encoding's raw field tokens. *)
Record RawEntity (T : Type) := mkRaw {
  r_uid : nat;
  r_name : string;
  r_id : Z;
  r_attributes : RecordPtr;
  r_data : list T
}.
Arguments mkRaw {T}.
Arguments r_uid {T}.
Arguments r_name {T}.
Arguments r_id {T}.
Arguments r_attributes {T}.
Arguments r_data {T}.

(** Modelled from the spec: a binary field is a tag byte with its payload, a
    text field is one token; in either encoding an entity-reference field
    holds a pointer to a record. *)
Inductive SabToken :=
| SabTok (tag : Z) (payload : list byte)
| SabPtr (p : RecordPtr).

Inductive SatToken :=
| SatTok (token : string)
| SatPtr (p : RecordPtr).

Abbreviation SabEntity := (RawEntity SabToken) (only parsing).
Abbreviation SatEntity := (RawEntity SatToken) (only parsing).

(** Modelled from the spec: the data parsers [sab.SabDataParser] and
    [sat.SatDataParser] are not part of the sources.  A parser is built from
    the record's fields and the format version, and that is all a [parse]
    method can read from it. *)
Inductive DataParser :=
| SabDataParser (data : list SabToken) (version : Z)
| SatDataParser (data : list SatToken) (version : Z).

(** ** Entity classes and entity nodes *)

(** Values of instance attributes. *)
Inductive Value :=
| VInt (z : Z)
| VStr (s : string)
| VRef (r : Ref).

#[global] Instance Value_eq_dec : EqDecision Value.
Proof. solve_decision. Defined.

(** What [parse(self, parser, entity_factory)] of a class can do with its
    arguments: finish, raise, call [entity_factory(uid, entity_type)] and go
    on with the returned node, or assign a value to an attribute of [self],
    whichever its name ([self.loop = ...] as well as [self.id = ...]).
    The two classes of the sources only finish ([pass]); the other cases are
    for classes registered by other modules. *)
Inductive ParseProg :=
| PDone
| PRaise (e : exn)
| PFactory (uid : nat) (entity_type : string) (k : Ref → ParseProg)
| PSetField (key : string) (v : Value) (k : ParseProg).

(** A class derived from [AcisEntity]: its [type] attribute, whether it is
    [Body] or derives from it, and its [parse] method. *)
Record EntityClass := mkClass {
  cls_type : string;
  cls_is_body : bool;
  cls_parse : DataParser → ParseProg
}.

(** class AcisEntity: [type = "unsupported-entity"], [parse] is [pass]. *)
Definition AcisEntity : EntityClass :=
  {| cls_type := "unsupported-entity";
     cls_is_body := false;
     cls_parse := λ _, PDone |}.

(** class Body(AcisEntity): overrides [type] only. *)
Definition Body : EntityClass :=
  {| cls_type := "body";
     cls_is_body := true;
     cls_parse := cls_parse AcisEntity |}.

(** An instance: its class and its instance attributes (its [__dict__]).
    An attribute that is not in the dictionary is looked up in the class. *)
Record Entity := mkEntity {
  e_cls : EntityClass;
  e_dict : gmap string Value
}.

(** [cls()]: no class of the sources defines [__init__]. *)
Definition new (c : EntityClass) : Entity :=
  {| e_cls := c; e_dict := ∅ |}.

(** [self.key = v], for any attribute name. *)
Definition set_field (key : string) (v : Value) (o : Entity) : Entity :=
  {| e_cls := e_cls o; e_dict := <[key := v]> (e_dict o) |}.

(** [entity.id = v] and [entity.attributes = a], as the loader assigns
    them. *)
Definition set_id (v : Z) (o : Entity) : Entity := set_field "id" (VInt v) o.

Definition set_attributes (a : Ref) (o : Entity) : Entity :=
  set_field "attributes" (VRef a) o.

(** The instance attribute [id]: [None] while it is unset (the class only
    annotates it). *)
Definition e_id (o : Entity) : option Value := e_dict o !! "id".

(** The instance attribute [attributes]: [None] while the instance has none,
    in which case the class default, Python's [None], is read. *)
Definition e_attributes (o : Entity) : option Value := e_dict o !! "attributes".

(** The instance attributes other than the two the loader assigns. *)
Definition e_fields (o : Entity) : gmap string Value :=
  delete "id" (delete "attributes" (e_dict o)).

(** Reading [entity.id]: an AttributeError while the attribute is unset. *)
Definition read_id (o : Entity) : exn + Value :=
  match e_id o with
  | Some v => inr v
  | None => inl (AttributeError "id")
  end.

(** Reading [entity.type]: the instance attribute when there is one, the
    class attribute otherwise. *)
Definition read_type (o : Entity) : Value :=
  default (VStr (cls_type (e_cls o))) (e_dict o !! "type").

(** ** The entity registry *)

(** [register(cls)]: [ENTITY_TYPES[cls.type] = cls]. *)
Definition register (cls : EntityClass) (reg : gmap string EntityClass)
  : gmap string EntityClass :=
  <[cls_type cls := cls]> reg.

(** The registry after the module is imported: [Body] is the only class
    decorated with [@register]. *)
Definition ENTITY_TYPES : gmap string EntityClass := register Body ∅.

(** ** Insertion-ordered dictionaries *)

Fixpoint dict_get {V : Type} (k : nat) (d : list (nat * V)) : option V :=
  match d with
  | [] => None
  | (k', v) :: d' => if decide (k = k') then Some v else dict_get k d'
  end.

(** [d[k] = v]: replaces the value in place when the key is present, appends
    the item otherwise. *)
Fixpoint dict_set {V : Type} (k : nat) (v : V) (d : list (nat * V))
  : list (nat * V) :=
  match d with
  | [] => [(k, v)]
  | (k', v') :: d' =>
      if decide (k = k') then (k', v) :: d' else (k', v') :: dict_set k v d'
  end.

(** ** class Loader *)

Record Loader := mkLoader {
  heap : list Entity;
  entities : list (nat * Ref);
  version : Z
}.

(** [Loader.__init__(version)] on an empty store. *)
Definition Loader_init (v : Z) : Loader :=
  {| heap := []; entities := []; version := v |}.

(** An assignment to an attribute of the object at [e]. *)
Definition setattr (e : Ref) (f : Entity → Entity) (self : Loader) : Loader :=
  {| heap := alter f e (heap self);
     entities := entities self;
     version := version self |}.

(** [Loader.get_entity(uid, entity_type)] *)
Definition get_entity (reg : gmap string EntityClass)
    (uid : nat) (entity_type : string) (self : Loader) : Ref * Loader :=
  match dict_get uid (entities self) with
  | Some e => (e, self)
  | None =>
      let entity := length (heap self) in
      (entity,
       {| heap := heap self ++ [new (default AcisEntity (reg !! entity_type))];
          entities := dict_set uid entity (entities self);
          version := version self |})
  end.

Definition isinstance_Body (h : list Entity) (e : Ref) : bool :=
  match h !! e with
  | Some o => cls_is_body (e_cls o)
  | None => false
  end.

(** [Loader.bodies()] *)
Definition bodies (self : Loader) : list Ref :=
  filter (λ e, isinstance_Body (heap self) e) (entities self).*2.

(** Running the body of a [parse] method on the node [self_]. *)
Fixpoint run_parse (reg : gmap string EntityClass) (self_ : Ref)
    (p : ParseProg) (ld : Loader) : exn + Loader :=
  match p with
  | PDone => inr ld
  | PRaise e => inl e
  | PFactory uid entity_type k =>
      let '(r, ld') := get_entity reg uid entity_type ld in
      run_parse reg self_ (k r) ld'
  | PSetField key v k =>
      run_parse reg self_ k (setattr self_ (set_field key v) ld)
  end.

(** [entity.parse(args, entity_factory)]: dispatch on the class of the
    node. *)
Definition call_parse (reg : gmap string EntityClass) (entity : Ref)
    (args : DataParser) (ld : Loader) : exn + Loader :=
  match heap ld !! entity with
  | Some o => run_parse reg entity (cls_parse (e_cls o) args) ld
  | None => inr ld
  end.

(** ** class SabLoader *)

Module SabLoader.

(** The body of the loop of [load_entities]. *)
Definition load_entity (reg : gmap string EntityClass)
    (sab_entity : SabEntity) (self : Loader) : exn + Loader :=
  let '(entity, s1) :=
    get_entity reg (r_uid sab_entity) (r_name sab_entity) self in
  let s2 := setattr entity (set_id (r_id sab_entity)) s1 in
  let attributes := r_attributes sab_entity in
  let s3 :=
    if negb (is_null_ptr attributes) then
      let '(a, s2') :=
        get_entity reg (r_uid sab_entity) (r_name sab_entity) s2 in
      setattr entity (set_attributes a) s2'
    else s2 in
  let args := SabDataParser (r_data sab_entity) (version s3) in
  call_parse reg entity args s3.

(** [for sab_entity in self.records: ...] *)
Fixpoint load_entities (reg : gmap string EntityClass)
    (records : list SabEntity) (self : Loader) : exn + Loader :=
  match records with
  | [] => inr self
  | sab_entity :: rest =>
      match load_entity reg sab_entity self with
      | inl e => inl e
      | inr self' => load_entities reg rest self'
      end
  end.

(** [SabLoader.load(data)]: [parse_sab] stands for [sab.parse_sab] together
    with the reads of [builder.header.version] and [builder.entities]. The
    result is the list returned by [bodies()] and the store its references
    point into. *)
Definition load (parse_sab : list byte → exn + (Z * list SabEntity))
    (reg : gmap string EntityClass) (data : list byte)
  : exn + (list Ref * list Entity) :=
  match parse_sab data with
  | inl e => inl e
  | inr (v, records) =>
      let loader := Loader_init v in
      match load_entities reg records loader with
      | inl e => inl e
      | inr loader' => inr (bodies loader', heap loader')
      end
  end.

End SabLoader.

(** ** class SatLoader *)

Module SatLoader.

Definition load_entity (reg : gmap string EntityClass)
    (sat_entity : SatEntity) (self : Loader) : exn + Loader :=
  let '(entity, s1) :=
    get_entity reg (r_uid sat_entity) (r_name sat_entity) self in
  let s2 := setattr entity (set_id (r_id sat_entity)) s1 in
  let attributes := r_attributes sat_entity in
  let s3 :=
    if negb (is_null_ptr attributes) then
      let '(a, s2') :=
        get_entity reg (r_uid sat_entity) (r_name sat_entity) s2 in
      setattr entity (set_attributes a) s2'
    else s2 in
  let args := SatDataParser (r_data sat_entity) (version s3) in
  call_parse reg entity args s3.

Fixpoint load_entities (reg : gmap string EntityClass)
    (records : list SatEntity) (self : Loader) : exn + Loader :=
  match records with
  | [] => inr self
  | sat_entity :: rest =>
      match load_entity reg sat_entity self with
      | inl e => inl e
      | inr self' => load_entities reg rest self'
      end
  end.

Definition load (parse_sat : string → exn + (Z * list SatEntity))
    (reg : gmap string EntityClass) (data : string)
  : exn + (list Ref * list Entity) :=
  match parse_sat data with
  | inl e => inl e
  | inr (v, records) =>
      let loader := Loader_init v in
      match load_entities reg records loader with
      | inl e => inl e
      | inr loader' => inr (bodies loader', heap loader')
      end
  end.

End SatLoader.

(** ** The entry point *)

(** [load(data)] *)
Definition load (parse_sab : list byte → exn + (Z * list SabEntity))
    (parse_sat : string → exn + (Z * list SatEntity))
    (reg : gmap string EntityClass) (data : PyObject)
  : exn + (list Ref * list Entity) :=
  match data with
  | PyBytes b | PyByteArray b => SabLoader.load parse_sab reg b
  | PyStr s => SatLoader.load parse_sat reg s
  | _ => inl (TypeError ("invalid type of data: " +:+ type_repr data))
  end.

(** * Specification vocabulary *)

(** The loop body of [load_entities] with the data parser as a parameter: the
    two loaders differ in nothing else (see [sab_load_entity_eq] and
    [sat_load_entity_eq]). *)
Definition load_record {T : Type} (mk_parser : list T → Z → DataParser)
    (reg : gmap string EntityClass) (record : RawEntity T) (self : Loader)
  : exn + Loader :=
  let '(entity, s1) := get_entity reg (r_uid record) (r_name record) self in
  let s2 := setattr entity (set_id (r_id record)) s1 in
  let attributes := r_attributes record in
  let s3 :=
    if negb (is_null_ptr attributes) then
      let '(a, s2') := get_entity reg (r_uid record) (r_name record) s2 in
      setattr entity (set_attributes a) s2'
    else s2 in
  let args := mk_parser (r_data record) (version s3) in
  call_parse reg entity args s3.

Fixpoint load_loop {T : Type} (mk_parser : list T → Z → DataParser)
    (reg : gmap string EntityClass) (records : list (RawEntity T))
    (self : Loader) : exn + Loader :=
  match records with
  | [] => inr self
  | record :: rest =>
      match load_record mk_parser reg record self with
      | inl e => inl e
      | inr self' => load_loop mk_parser reg rest self'
      end
  end.

(** The dictionary has one item per key and its values are exactly the
    addresses of the allocated nodes, in allocation order: [get_entity] is the
    only allocator. *)
Definition wf (s : Loader) : Prop :=
  NoDup (entities s).*1 ∧ (entities s).*2 = seq 0 (length (heap s)).

(** A miss of [get_entity]: allocate and memoize. *)
Definition alloc (u : nat) (c : EntityClass) (s : Loader) : Loader :=
  {| heap := heap s ++ [new c];
     entities := entities s ++ [(u, length (heap s))];
     version := version s |}.

(** [s'] extends [s]: every memoized identity keeps its node and every node
    keeps its class. *)
Definition ext (s s' : Loader) : Prop :=
  version s' = version s ∧
  (∀ u e, dict_get u (entities s) = Some e →
          dict_get u (entities s') = Some e) ∧
  (∀ e o, heap s !! e = Some o →
          ∃ o', heap s' !! e = Some o' ∧ e_cls o' = e_cls o).

(** The classes a node can have under a registry. *)
Definition known (reg : gmap string EntityClass) (c : EntityClass) : Prop :=
  c = AcisEntity ∨ ∃ k, reg !! k = Some c.

(** What the state of a node tells about the past of the load.  [D] holds of
    the identities whose own record has been processed: only their nodes have
    instance attributes, and only the [parse] of a class that does something
    gives a node attributes other than [id] and [attributes]. *)
Definition node_ok (reg : gmap string EntityClass) (D : nat → Prop)
    (u : nat) (o : Entity) : Prop :=
  (e_dict o ≠ ∅ → D u) ∧
  (e_fields o ≠ ∅ → ∃ args, cls_parse (e_cls o) args ≠ PDone) ∧
  known reg (e_cls o).

Definition tracked (reg : gmap string EntityClass) (D : nat → Prop)
    (s : Loader) : Prop :=
  ∀ u e o, dict_get u (entities s) = Some e → heap s !! e = Some o →
           node_ok reg D u o.

(** A [parse] body that assigns nothing to the attribute [key]. *)
Inductive never_stores (key : string) : ParseProg → Prop :=
| ns_done : never_stores key PDone
| ns_raise e : never_stores key (PRaise e)
| ns_factory u ty k :
    (∀ r, never_stores key (k r)) → never_stores key (PFactory u ty k)
| ns_set_field key' v k :
    key' ≠ key → never_stores key k →
    never_stores key (PSetField key' v k).

(** The [parse] of the class of the node [o] assigns nothing to [key],
    whatever the data of the record. *)
Definition keeps (key : string) (o : Entity) : Prop :=
  ∀ args, never_stores key (cls_parse (e_cls o) args).

(** Every [attributes] link that is the loader's (the [parse] of the node
    assigns none) points to the node that carries it. *)
Definition links_tracked (s : Loader) : Prop :=
  ∀ e o a, heap s !! e = Some o → keeps "attributes" o →
           e_attributes o = Some a → a = VRef e.

(** Records are Python objects: two items of a stream with the same identity
    are the same record. *)
Definition identity_keyed {T : Type} (records : list (RawEntity T)) : Prop :=
  ∀ r r', r ∈ records → r' ∈ records → r_uid r = r_uid r' → r = r'.

(** A sequence of [get_entity] calls, as made by references in any order. *)
Fixpoint run_calls (reg : gmap string EntityClass)
    (calls : list (nat * string)) (s : Loader) : Loader :=
  match calls with
  | [] => s
  | (u, ty) :: rest => run_calls reg rest (get_entity reg u ty s).2
  end.

(** The part of the loop body that precedes the call of [parse]: the node of
    the record with its [id] and [attributes] assigned. *)
Definition attach {T : Type} (reg : gmap string EntityClass)
    (record : RawEntity T) (self : Loader) : Ref * Loader :=
  let '(entity, s1) := get_entity reg (r_uid record) (r_name record) self in
  let s2 := setattr entity (set_id (r_id record)) s1 in
  let s3 :=
    if negb (is_null_ptr (r_attributes record)) then
      let '(a, s2') := get_entity reg (r_uid record) (r_name record) s2 in
      setattr entity (set_attributes a) s2'
    else s2 in
  (entity, s3).

(** The two assignments of the loop body to the node at [e] of the record
    [r]: [entity.id = record.id], then [entity.attributes = entity] when the
    attribute pointer is not null (the factory is called with the record's own
    identity and answers [entity]). *)
Definition stamp {T : Type} (e : Ref) (r : RawEntity T) (o : Entity) : Entity :=
  if is_null_ptr (r_attributes r) then set_id (r_id r) o
  else set_attributes e (set_id (r_id r) o).

(** The node that the loop body leaves for a record met for the first time,
    when it is allocated at address [e] and its [parse] stores nothing: an
    instance of the class registered for the record's name, with the record's
    [id], and with itself as [attributes] when the pointer is not null. *)
Definition node_of {T : Type} (reg : gmap string EntityClass) (e : Ref)
    (r : RawEntity T) : Entity :=
  stamp e r (new (default AcisEntity (reg !! r_name r))).

(** The identity [u] is memoized to a node of the generic class: its [type]
    reads "unsupported-entity" and it has no attribute of a subclass. *)
Definition generic_node (s : Loader) (u : nat) : Prop :=
  ∃ e o, dict_get u (entities s) = Some e ∧ heap s !! e = Some o ∧
         e_cls o = AcisEntity ∧ read_type o = VStr "unsupported-entity" ∧
         e_fields o = ∅.

(** Two runs of a loader need not see the same record identities: [id()] is
    an address.  The next definitions relate two streams up to a renaming [φ]
    of the identities. *)

(** Two [parse] bodies that do the same, up to the renaming of the identities
    they hand to the factory. *)
Inductive prog_sim (φ : nat → nat) : ParseProg → ParseProg → Prop :=
| sim_done : prog_sim φ PDone PDone
| sim_raise e : prog_sim φ (PRaise e) (PRaise e)
| sim_factory u ty k k' :
    (∀ r, prog_sim φ (k r) (k' r)) →
    prog_sim φ (PFactory u ty k) (PFactory (φ u) ty k')
| sim_set_field key v k k' :
    prog_sim φ k k' → prog_sim φ (PSetField key v k) (PSetField key v k').

Definition ptr_sim (φ : nat → nat) (a a' : RecordPtr) : Prop :=
  match a, a' with
  | NullPtr, NullPtr => True
  | Ptr u n, Ptr u' n' => u' = φ u ∧ n' = n
  | _, _ => False
  end.

(** Two records with the same content: the same type name, numeric id and
    attribute pointer, and fields that every class of the registry parses
    alike, each through its own data parser and format version. *)
Definition record_sim {T T' : Type}
    (mk : list T → Z → DataParser) (mk' : list T' → Z → DataParser)
    (reg : gmap string EntityClass) (φ : nat → nat) (v v' : Z)
    (r : RawEntity T) (r' : RawEntity T') : Prop :=
  r_uid r' = φ (r_uid r) ∧ r_name r' = r_name r ∧ r_id r' = r_id r ∧
  ptr_sim φ (r_attributes r) (r_attributes r') ∧
  ∀ c, known reg c →
       prog_sim φ (cls_parse c (mk (r_data r) v))
                  (cls_parse c (mk' (r_data r') v')).

(** The same store of nodes, memoized under renamed identities. *)
Definition state_sim (φ : nat → nat) (s t : Loader) : Prop :=
  heap t = heap s ∧ entities t = prod_map φ id <$> entities s.

Definition result_sim (φ : nat → nat) (x y : exn + Loader) : Prop :=
  match x, y with
  | inl e, inl e' => e' = e
  | inr s, inr t => state_sim φ s t
  | _, _ => False
  end.

(** [isinstance(data, (bytes, bytearray))] and [isinstance(data, str)]. *)
Definition is_bytes_like (data : PyObject) : bool :=
  match data with
  | PyBytes _ | PyByteArray _ => true
  | _ => false
  end.

Definition is_str (data : PyObject) : bool :=
  match data with
  | PyStr _ => true
  | _ => false
  end.

(** A class as a geometry module would register it, used to exercise the
    loader: a face that owns a loop.  Its [parse] reads one entity reference:
    it raises when the field is missing or of another kind, and otherwise
    resolves the referenced record through the factory and keeps the node. *)
Definition Face_loop (p : option RecordPtr) : ParseProg :=
  match p with
  | Some (Ptr uid name) =>
      PFactory uid name (λ loop, PSetField "loop" (VRef loop) PDone)
  | Some NullPtr => PDone
  | None => PRaise (FormatError "face: expected a loop pointer")
  end.

Definition Face : EntityClass :=
  {| cls_type := "face";
     cls_is_body := false;
     cls_parse := λ args,
       match args with
       | SabDataParser (SabPtr p :: _) _ => Face_loop (Some p)
       | SatDataParser (SatPtr p :: _) _ => Face_loop (Some p)
       | _ => Face_loop None
       end |}.

(** A second class to exercise the loader: a shell that may own a face.  Its
    [parse] resolves a leading entity reference when there is one and ignores
    everything else. *)
Definition Shell : EntityClass :=
  {| cls_type := "shell";
     cls_is_body := false;
     cls_parse := λ args,
       match args with
       | SabDataParser (SabPtr p :: _) _ => Face_loop (Some p)
       | SatDataParser (SatPtr p :: _) _ => Face_loop (Some p)
       | _ => PDone
       end |}.

(** ** Vocabulary of the further properties *)

(** A [parse] body that raises on no path. *)
Inductive never_raises : ParseProg → Prop :=
| nr_done : never_raises PDone
| nr_factory u ty k :
    (∀ r, never_raises (k r)) → never_raises (PFactory u ty k)
| nr_set_field key v k :
    never_raises k → never_raises (PSetField key v k).

(** A registry whose classes all inherit the [parse] of [AcisEntity]. *)
Definition inert (reg : gmap string EntityClass) : Prop :=
  ∀ c, known reg c → ∀ args, cls_parse c args = PDone.

(** A registry filled through [register] only: every class sits under its own
    [type]. *)
Definition well_keyed (reg : gmap string EntityClass) : Prop :=
  ∀ k c, reg !! k = Some c → cls_type c = k.

(** The node of every processed record reads, at every attribute that its
    [parse] does not assign, what the loop body assigned to a newly
    constructed instance of its class: the record's [id], the node itself as
    [attributes] when the pointer is not null, and nothing else. *)
Definition stamped {T : Type} (done : list (RawEntity T)) (s : Loader)
  : Prop :=
  ∀ r, r ∈ done →
       ∃ e o, dict_get (r_uid r) (entities s) = Some e ∧
              heap s !! e = Some o ∧
              ∀ key, keeps key o →
                     e_dict o !! key
                     = e_dict (stamp e r (new (e_cls o))) !! key.

(** * Properties *)

(** ** Dictionaries *)

Section dict.
Context {V : Type}.
Implicit Types (d : list (nat * V)) (k : nat) (v : V).

Lemma dict_get_None d k : dict_get k d = None ↔ k ∉ d.*1.
Proof.
  induction d as [|[k' v'] d IH]; simpl.
  - split; [intros _; apply not_elem_of_nil | done].
  - case_decide as Hk.
    + subst. split; [done | intros []; apply elem_of_cons; by left].
    + rewrite IH, not_elem_of_cons. tauto.
Qed.

Lemma dict_get_Some_elem d k v : dict_get k d = Some v → (k, v) ∈ d.
Proof.
  induction d as [|[k' v'] d IH]; simpl; [done|].
  case_decide as Hk.
  - intros [= ->]. subst. apply elem_of_cons; by left.
  - intros H. apply elem_of_cons; right; auto.
Qed.

Lemma dict_get_elem d k v : NoDup d.*1 → (k, v) ∈ d → dict_get k d = Some v.
Proof.
  induction d as [|[k' v'] d IH]; simpl.
  - intros _ H. by apply elem_of_nil in H.
  - intros [Hk Hd]%NoDup_cons [H|H]%elem_of_cons.
    + injection H as -> ->. by rewrite decide_True.
    + case_decide as Hkk; [|by apply IH].
      subst. destruct Hk. apply list_elem_of_fmap. by exists (k', v).
Qed.

(** Storing under an absent key appends. *)
Lemma dict_set_fresh d k v : dict_get k d = None → dict_set k v d = d ++ [(k, v)].
Proof.
  induction d as [|[k' v'] d IH]; simpl; [done|].
  case_decide; [done|]. intros Hd. by rewrite IH.
Qed.

Lemma dict_get_app d1 d2 k :
  dict_get k (d1 ++ d2) =
  match dict_get k d1 with Some v => Some v | None => dict_get k d2 end.
Proof.
  induction d1 as [|[k' v'] d1 IH]; simpl; [done|].
  by case_decide.
Qed.

Lemma dict_get_set_eq d k v : dict_get k (dict_set k v d) = Some v.
Proof.
  induction d as [|[k' v'] d IH]; simpl.
  - by rewrite decide_True.
  - case_decide as Hk; simpl; [by rewrite decide_True|].
    by rewrite decide_False.
Qed.

Lemma dict_get_set_ne d k k' v : k ≠ k' → dict_get k' (dict_set k v d) = dict_get k' d.
Proof.
  intros Hne. induction d as [|[k0 v0] d IH]; simpl.
  - by rewrite decide_False.
  - case_decide as Hk; simpl.
    + subst. by rewrite !decide_False by done.
    + by rewrite IH.
Qed.
End dict.

(** ** Well-formed loader states *)

Lemma wf_init v : wf (Loader_init v).
Proof. split; [apply NoDup_nil_2 | done]. Qed.

Lemma wf_values_NoDup s : wf s → NoDup (entities s).*2.
Proof. intros [_ ->]. apply NoDup_seq. Qed.

Lemma wf_ref_valid s u e :
  wf s → dict_get u (entities s) = Some e → e < length (heap s).
Proof.
  intros [_ Hv] H%dict_get_Some_elem.
  assert (e ∈ (entities s).*2) as He.
  { apply list_elem_of_fmap. by exists (u, e). }
  rewrite Hv in He. apply elem_of_seq in He. lia.
Qed.

Lemma wf_ref_inj s u u' e :
  wf s → dict_get u (entities s) = Some e → dict_get u' (entities s) = Some e →
  u = u'.
Proof.
  intros Hwf H1%dict_get_Some_elem H2%dict_get_Some_elem.
  apply wf_values_NoDup in Hwf.
  apply list_elem_of_lookup in H1 as [i Hi], H2 as [j Hj].
  assert (i = j) as ->.
  { eapply NoDup_lookup; [exact Hwf| |].
    - rewrite list_lookup_fmap, Hi. done.
    - rewrite list_lookup_fmap, Hj. done. }
  congruence.
Qed.

Lemma wf_heap_has_key s e :
  wf s → e < length (heap s) → ∃ u, dict_get u (entities s) = Some e.
Proof.
  intros [Hk Hv] He.
  assert (e ∈ (entities s).*2) as Hin.
  { rewrite Hv. apply elem_of_seq. lia. }
  apply list_elem_of_fmap in Hin as [[u e'] [-> Hin]].
  exists u. by apply dict_get_elem.
Qed.

(** ** The two primitive effects *)

Lemma get_entity_hit reg u ty s e :
  dict_get u (entities s) = Some e → get_entity reg u ty s = (e, s).
Proof. unfold get_entity. by intros ->. Qed.

Lemma get_entity_miss reg u ty s :
  dict_get u (entities s) = None →
  get_entity reg u ty s =
    (length (heap s), alloc u (default AcisEntity (reg !! ty)) s).
Proof.
  unfold get_entity, alloc. intros H. rewrite H. by rewrite dict_set_fresh.
Qed.

Lemma alloc_wf u c s : wf s → dict_get u (entities s) = None → wf (alloc u c s).
Proof.
  intros [Hk Hv] Hu. split; simpl.
  - rewrite fmap_app. apply NoDup_app. split; [done|]. split.
    + intros x Hx Hx'. simpl in Hx'. apply list_elem_of_singleton in Hx'.
      subst. by apply dict_get_None in Hu.
    + apply NoDup_singleton.
  - rewrite fmap_app, Hv, length_app. simpl. rewrite Nat.add_1_r, seq_S. done.
Qed.

Lemma setattr_wf e f s : wf s → wf (setattr e f s).
Proof. intros [Hk Hv]. split; simpl; [done|]. by rewrite length_alter. Qed.

Lemma get_entity_wf reg u ty s : wf s → wf (get_entity reg u ty s).2.
Proof.
  intros Hwf. destruct (dict_get u (entities s)) as [e|] eqn:Hu.
  - by rewrite (get_entity_hit _ _ _ _ e).
  - rewrite get_entity_miss by done. by apply alloc_wf.
Qed.

Lemma get_entity_cached reg u ty s :
  dict_get u (entities (get_entity reg u ty s).2) = Some (get_entity reg u ty s).1.
Proof.
  destruct (dict_get u (entities s)) as [e|] eqn:Hu.
  - by rewrite (get_entity_hit _ _ _ _ e).
  - rewrite get_entity_miss by done. simpl.
    rewrite dict_get_app, Hu. simpl. by rewrite decide_True.
Qed.

Lemma get_entity_valid reg u ty s :
  wf s → (get_entity reg u ty s).1 < length (heap (get_entity reg u ty s).2).
Proof.
  intros Hwf. eapply wf_ref_valid; [by apply get_entity_wf|].
  apply get_entity_cached.
Qed.

(** ** Extension of loader states *)

Lemma ext_refl s : ext s s.
Proof. split; [done|]. split; [done|]. intros e o H. by exists o. Qed.

Lemma ext_trans s1 s2 s3 : ext s1 s2 → ext s2 s3 → ext s1 s3.
Proof.
  intros (Hv1 & Hd1 & Hh1) (Hv2 & Hd2 & Hh2). split; [congruence|]. split.
  - auto.
  - intros e o H. destruct (Hh1 _ _ H) as (o' & H' & Hc').
    destruct (Hh2 _ _ H') as (o'' & H'' & Hc''). exists o''. split; [done|].
    congruence.
Qed.

Lemma ext_alloc u c s : ext s (alloc u c s).
Proof.
  split; [done|]. split; simpl.
  - intros u' e H. by rewrite dict_get_app, H.
  - intros e o H. exists o. split; [|done]. by apply lookup_app_l_Some.
Qed.

Lemma ext_setattr e f s :
  (∀ o, e_cls (f o) = e_cls o) → ext s (setattr e f s).
Proof.
  intros Hf. split; [done|]. split; [done|]. simpl. intros e' o H.
  destruct (decide (e = e')) as [->|Hne].
  - exists (f o). rewrite list_lookup_alter_eq, H. by split.
  - exists o. by rewrite list_lookup_alter_ne.
Qed.

Lemma ext_get_entity reg u ty s : ext s (get_entity reg u ty s).2.
Proof.
  destruct (dict_get u (entities s)) as [e|] eqn:Hu.
  - rewrite (get_entity_hit _ _ _ _ e) by done. apply ext_refl.
  - rewrite get_entity_miss by done. apply ext_alloc.
Qed.

Lemma ext_run_parse reg self_ p : ∀ s s',
  run_parse reg self_ p s = inr s' → ext s s'.
Proof.
  induction p as [|e|u ty k IH|key v k IH]; intros s s'; simpl.
  - intros [= <-]. apply ext_refl.
  - done.
  - pose proof (ext_get_entity reg u ty s) as He.
    destruct (get_entity reg u ty s) as [r s1]. intros Hr.
    eapply ext_trans; [exact He | by eapply IH].
  - intros Hr. eapply ext_trans; [|by eapply IH]. by apply ext_setattr.
Qed.

Lemma ext_call_parse reg e args s s' :
  call_parse reg e args s = inr s' → ext s s'.
Proof.
  unfold call_parse. destruct (heap s !! e) as [o|].
  - apply ext_run_parse.
  - intros [= <-]. apply ext_refl.
Qed.

Lemma ext_attach {T} reg (r : RawEntity T) s : ext s (attach reg r s).2.
Proof.
  unfold attach.
  pose proof (ext_get_entity reg (r_uid r) (r_name r) s) as He1.
  destruct (get_entity reg (r_uid r) (r_name r) s) as [e s1].
  set (s2 := setattr e (set_id (r_id r)) s1).
  assert (ext s1 s2) as He2 by by apply ext_setattr.
  destruct (is_null_ptr (r_attributes r)); simpl.
  - by eapply ext_trans.
  - pose proof (ext_get_entity reg (r_uid r) (r_name r) s2) as He3.
    destruct (get_entity reg (r_uid r) (r_name r) s2) as [a s2']. simpl in *.
    eapply ext_trans; [exact He1|]. eapply ext_trans; [exact He2|].
    eapply ext_trans; [exact He3|]. by apply ext_setattr.
Qed.

(** ** Tracking what has been assigned *)

Lemma e_fields_new c : e_fields (new c) = ∅.
Proof. unfold e_fields, new. simpl. by rewrite !delete_empty. Qed.

Lemma e_fields_set_loader key v o :
  key = "id" ∨ key = "attributes" →
  e_fields (set_field key v o) = e_fields o.
Proof.
  intros Hk. unfold e_fields, set_field. simpl. apply map_eq. intros k.
  rewrite !lookup_delete. repeat case_decide; try done.
  rewrite lookup_insert_ne; [done|]. by destruct Hk as [-> | ->].
Qed.

Section tracking.
Context (reg : gmap string EntityClass).
Implicit Types (D : nat → Prop).

Lemma tracked_init D v : tracked reg D (Loader_init v).
Proof. intros u e o H. done. Qed.

Lemma tracked_mono D D' s :
  (∀ u, D u → D' u) → tracked reg D s → tracked reg D' s.
Proof.
  intros HD Ht u e o Hu Ho. destruct (Ht u e o Hu Ho) as (H1 & H2 & H3).
  split; [auto|done].
Qed.

Lemma tracked_alloc D u c s :
  wf s → known reg c → tracked reg D s → tracked reg D (alloc u c s).
Proof.
  intros Hwf Hc Ht u' e o. simpl. rewrite dict_get_app.
  destruct (dict_get u' (entities s)) as [e'|] eqn:Hu'.
  - intros [= ->] Ho. apply (Ht u' e o Hu').
    rewrite lookup_app_l in Ho; [done|]. by eapply wf_ref_valid.
  - simpl. case_decide; [|done]. intros [= <-].
    rewrite list_lookup_middle by done. intros [= <-].
    split; [done|]. split; [|done]. by rewrite e_fields_new.
Qed.

Lemma tracked_setattr D e f s :
  tracked reg D s →
  (∀ u o, dict_get u (entities s) = Some e → heap s !! e = Some o →
          node_ok reg D u o → node_ok reg D u (f o)) →
  tracked reg D (setattr e f s).
Proof.
  intros Ht Hf u e' o'. simpl. intros Hu.
  destruct (decide (e = e')) as [<-|Hne].
  - rewrite list_lookup_alter_eq.
    intros (o & Ho & ->)%fmap_Some. apply Hf; [done..|]. by eapply Ht.
  - rewrite list_lookup_alter_ne by done. by eapply Ht.
Qed.

(** An assignment by the loader to a node whose record is being processed. *)
Lemma node_ok_set_loader D key v u o :
  key = "id" ∨ key = "attributes" → D u →
  node_ok reg D u o → node_ok reg D u (set_field key v o).
Proof.
  intros Hk HD (H1 & H2 & H3). split; [done|]. split; [|done].
  by rewrite e_fields_set_loader.
Qed.

Lemma known_default ty : known reg (default AcisEntity (reg !! ty)).
Proof.
  destruct (reg !! ty) as [c|] eqn:H; simpl; [right; by exists ty | by left].
Qed.

Lemma get_entity_inv D u ty s e s1 :
  wf s → tracked reg D s → get_entity reg u ty s = (e, s1) →
  wf s1 ∧ tracked reg D s1 ∧ ext s s1 ∧
  dict_get u (entities s1) = Some e.
Proof.
  intros Hwf Ht Hg.
  pose proof (get_entity_wf reg u ty s Hwf) as H1.
  pose proof (ext_get_entity reg u ty s) as H2.
  pose proof (get_entity_cached reg u ty s) as H3.
  assert (tracked reg D (get_entity reg u ty s).2) as H4.
  { destruct (dict_get u (entities s)) as [e'|] eqn:Hu.
    - by rewrite (get_entity_hit _ _ _ _ e').
    - rewrite get_entity_miss by done. simpl.
      apply tracked_alloc; [done| apply known_default | done]. }
  rewrite Hg in *. done.
Qed.

(** Running a [parse] method on the node of a record that is being processed,
    when the class of the node has a [parse] that does something. *)
Lemma run_parse_inv D self_ p : ∀ s s',
  wf s → tracked reg D s →
  (∃ o, heap s !! self_ = Some o ∧ ∃ args, cls_parse (e_cls o) args ≠ PDone) →
  (∃ u0, dict_get u0 (entities s) = Some self_ ∧ D u0) →
  run_parse reg self_ p s = inr s' →
  wf s' ∧ tracked reg D s' ∧ ext s s'.
Proof.
  induction p as [|e|u ty k IH|key v k IH]; intros s s' Hwf Ht Hself Hown;
    simpl.
  - intros [= <-]. split; [done|]. split; [done|]. apply ext_refl.
  - done.
  - destruct (get_entity reg u ty s) as [r s1] eqn:Hg.
    destruct (get_entity_inv D _ _ _ _ _ Hwf Ht Hg) as (Hwf1 & Ht1 & He1 & _).
    intros Hrun.
    destruct (IH r s1 s' Hwf1 Ht1) as (Hwf' & Ht' & He'); [| |done|].
    + destruct Hself as (o & Ho & Hargs).
      destruct He1 as (_ & _ & Hh). destruct (Hh _ _ Ho) as (o' & Ho' & Hc).
      exists o'. split; [done|]. by rewrite Hc.
    + destruct Hown as (u0 & Hu0 & HD). exists u0. split; [|done].
      destruct He1 as (_ & Hd & _). by apply Hd.
    + split; [done|]. split; [done|]. by eapply ext_trans.
  - intros Hrun.
    destruct (IH (setattr self_ (set_field key v) s) s') as (Hwf' & Ht' & He');
      [by apply setattr_wf | | | | done |].
    + apply tracked_setattr; [done|].
      intros u o Hu Ho (H1 & H2 & H3). split; [|split; [|done]].
      * intros _. destruct Hown as (u0 & Hu0 & HD).
        by rewrite (wf_ref_inj _ _ _ _ Hwf Hu Hu0).
      * intros _. simpl. destruct Hself as (o0 & Ho0 & Hargs).
        rewrite Ho in Ho0. by injection Ho0 as <-.
    + destruct Hself as (o & Ho & Hargs). exists (set_field key v o).
      simpl. rewrite list_lookup_alter_eq, Ho. done.
    + done.
    + split; [done|]. split; [done|].
      eapply ext_trans; [|done]. by apply ext_setattr.
Qed.

Lemma call_parse_inv D e args s s' :
  wf s → tracked reg D s →
  (∃ u0, dict_get u0 (entities s) = Some e ∧ D u0) →
  call_parse reg e args s = inr s' →
  wf s' ∧ tracked reg D s' ∧ ext s s'.
Proof.
  intros Hwf Ht Hown. unfold call_parse.
  destruct (heap s !! e) as [o|] eqn:Ho.
  - destruct (cls_parse (e_cls o) args) eqn:Hp;
      try (apply run_parse_inv; [done..| |done]; exists o; split; [done|];
           exists args; by rewrite Hp).
    simpl. intros [= <-]. split; [done|]. split; [done|]. apply ext_refl.
  - intros [= <-]. split; [done|]. split; [done|]. apply ext_refl.
Qed.

(** One record: its own identity joins [D]. *)
Lemma attach_inv {T} D (r : RawEntity T) s entity s3 :
  wf s → tracked reg D s → attach reg r s = (entity, s3) →
  wf s3 ∧ ext s s3 ∧
  tracked reg (λ u, u = r_uid r ∨ D u) s3 ∧
  dict_get (r_uid r) (entities s3) = Some entity.
Proof.
  intros Hwf Ht. unfold attach.
  destruct (get_entity reg (r_uid r) (r_name r) s) as [e s1] eqn:Hg.
  destruct (get_entity_inv D _ _ _ _ _ Hwf Ht Hg) as (Hwf1 & Ht1 & He1 & Hu1).
  set (D' := λ u, u = r_uid r ∨ D u).
  set (s2 := setattr e (set_id (r_id r)) s1).
  assert (wf s2) as Hwf2 by by apply setattr_wf.
  assert (ext s1 s2) as He2 by by apply ext_setattr.
  assert (tracked reg D' s2) as Ht2.
  { apply tracked_setattr.
    - eapply tracked_mono; [|exact Ht1]. by right.
    - intros u o Hu Ho Hok. apply node_ok_set_loader; [by left| |done].
      left. by eapply wf_ref_inj. }
  assert (dict_get (r_uid r) (entities s2) = Some e) as Hu2 by done.
  destruct (is_null_ptr (r_attributes r)) eqn:Hnull; simpl.
  - intros [= <- <-]. split; [done|].
    split; [by eapply ext_trans|]. by split.
  - rewrite (get_entity_hit _ _ _ _ e) by done. intros [= <- <-].
    split; [by apply setattr_wf|]. split.
    { eapply ext_trans; [exact He1|]. eapply ext_trans; [exact He2|].
      by apply ext_setattr. }
    split; [|done]. apply tracked_setattr; [done|].
    intros u o Hu Ho Hok. apply node_ok_set_loader; [by right| |done].
    left. by eapply wf_ref_inj.
Qed.

Lemma load_record_attach {T} (mk : list T → Z → DataParser) r s :
  load_record mk reg r s =
  call_parse reg (attach reg r s).1
    (mk (r_data r) (version (attach reg r s).2)) (attach reg r s).2.
Proof.
  unfold load_record, attach.
  destruct (get_entity reg (r_uid r) (r_name r) s) as [e s1].
  destruct (is_null_ptr (r_attributes r)); simpl; [done|].
  by destruct (get_entity reg (r_uid r) (r_name r) _).
Qed.

Lemma load_record_inv {T} (mk : list T → Z → DataParser) D r s s' :
  wf s → tracked reg D s → load_record mk reg r s = inr s' →
  wf s' ∧ ext s s' ∧
  tracked reg (λ u, u = r_uid r ∨ D u) s' ∧
  is_Some (dict_get (r_uid r) (entities s')).
Proof.
  intros Hwf Ht. rewrite load_record_attach.
  destruct (attach reg r s) as [entity s3] eqn:Ha. simpl.
  destruct (attach_inv D _ _ _ _ Hwf Ht Ha) as (Hwf3 & He3 & Ht3 & Hu3).
  intros Hp.
  assert (∃ u0, dict_get u0 (entities s3) = Some entity ∧
                (u0 = r_uid r ∨ D u0)) as Hown.
  { exists (r_uid r). split; [done|]. by left. }
  destruct (call_parse_inv _ _ _ _ _ Hwf3 Ht3 Hown Hp) as (Hwf' & Ht' & He').
  split; [done|]. split; [by eapply ext_trans|]. split; [done|].
  destruct He' as (_ & Hd & _). eauto.
Qed.

Lemma load_loop_inv {T} (mk : list T → Z → DataParser) rs : ∀ D s s',
  wf s → tracked reg D s → load_loop mk reg rs s = inr s' →
  wf s' ∧ ext s s' ∧
  tracked reg (λ u, (∃ r, r ∈ rs ∧ r_uid r = u) ∨ D u) s' ∧
  (∀ r, r ∈ rs → is_Some (dict_get (r_uid r) (entities s'))).
Proof.
  induction rs as [|r rs IH]; intros D s s' Hwf Ht; simpl.
  - intros [= <-]. split; [done|]. split; [apply ext_refl|]. split.
    + eapply tracked_mono; [|exact Ht]. by right.
    + intros r Hr. by apply elem_of_nil in Hr.
  - destruct (load_record mk reg r s) as [e|s1] eqn:Hr; [done|].
    destruct (load_record_inv mk D _ _ _ Hwf Ht Hr) as (Hwf1 & He1 & Ht1 & Hk1).
    intros Hl. destruct (IH _ _ _ Hwf1 Ht1 Hl) as (Hwf' & He' & Ht' & Hk').
    split; [done|]. split; [by eapply ext_trans|]. split.
    + eapply tracked_mono; [|exact Ht'].
      intros u [(r' & Hr' & <-)|[->|HD]].
      * left. exists r'. split; [by apply elem_of_cons; right|done].
      * left. exists r. split; [by apply elem_of_cons; left|done].
      * by right.
    + intros r' [->|Hr']%elem_of_cons; [|by apply Hk'].
      destruct Hk1 as [e He]. destruct He' as (_ & Hd & _). eauto.
Qed.

End tracking.

(** The two loaders run the same loop. *)
Lemma sab_load_entity_eq reg r s :
  SabLoader.load_entity reg r s = load_record SabDataParser reg r s.
Proof. reflexivity. Qed.

Lemma sat_load_entity_eq reg r s :
  SatLoader.load_entity reg r s = load_record SatDataParser reg r s.
Proof. reflexivity. Qed.

Lemma sab_load_entities_eq reg rs : ∀ s,
  SabLoader.load_entities reg rs s = load_loop SabDataParser reg rs s.
Proof.
  induction rs as [|r rs IH]; intros s; simpl; [done|].
  rewrite sab_load_entity_eq. destruct (load_record _ _ _ _); [done|apply IH].
Qed.

Lemma sat_load_entities_eq reg rs : ∀ s,
  SatLoader.load_entities reg rs s = load_loop SatDataParser reg rs s.
Proof.
  induction rs as [|r rs IH]; intros s; simpl; [done|].
  rewrite sat_load_entity_eq. destruct (load_record _ _ _ _); [done|apply IH].
Qed.

(** ** States reached by a load *)

Lemma ext_load_record {T} (mk : list T → Z → DataParser) reg r s s' :
  load_record mk reg r s = inr s' → ext s s'.
Proof.
  rewrite load_record_attach. intros Hp%ext_call_parse.
  eapply ext_trans; [apply (ext_attach reg r s) | exact Hp].
Qed.

Lemma ext_load_loop {T} (mk : list T → Z → DataParser) reg rs : ∀ s s',
  load_loop mk reg rs s = inr s' → ext s s'.
Proof.
  induction rs as [|r rs IH]; intros s s'; simpl.
  - intros [= <-]. apply ext_refl.
  - destruct (load_record mk reg r s) as [e|s1] eqn:Hr; [done|].
    intros Hl. eapply ext_trans; [by eapply ext_load_record | by eapply IH].
Qed.


Lemma ext_run_calls reg calls : ∀ s, ext s (run_calls reg calls s).
Proof.
  induction calls as [|[u ty] calls IH]; intros s; simpl; [apply ext_refl|].
  eapply ext_trans; [apply ext_get_entity | apply IH].
Qed.

Lemma wf_run_calls reg calls : ∀ s, wf s → wf (run_calls reg calls s).
Proof.
  induction calls as [|[u ty] calls IH]; intros s Hwf; simpl; [done|].
  apply IH. by apply get_entity_wf.
Qed.

Lemma load_loop_app {T} (mk : list T → Z → DataParser) reg pre post : ∀ s,
  load_loop mk reg (pre ++ post) s =
  match load_loop mk reg pre s with
  | inl e => inl e
  | inr s1 => load_loop mk reg post s1
  end.
Proof.
  induction pre as [|r pre IH]; intros s; simpl; [done|].
  destruct (load_record mk reg r s); [done|apply IH].
Qed.

Lemma load_loop_from_init {T} (mk : list T → Z → DataParser) reg rs v s :
  load_loop mk reg rs (Loader_init v) = inr s →
  wf s ∧ version s = v ∧
  tracked reg (λ u, ∃ r, r ∈ rs ∧ r_uid r = u) s ∧
  (∀ r, r ∈ rs → is_Some (dict_get (r_uid r) (entities s))).
Proof.
  intros Hl.
  destruct (load_loop_inv reg mk rs (λ _, False) _ _
              (wf_init v) (tracked_init reg _ v) Hl) as (Hwf & He & Ht & Hk).
  split; [done|]. split; [by destruct He|]. split; [|done].
  eapply tracked_mono; [|exact Ht]. by intros u [?|[]].
Qed.

(** Every node of a well-formed state has a class of the registry, whether or
    not its own record has been seen. *)
Lemma tracked_known reg D s e o :
  wf s → tracked reg D s → heap s !! e = Some o → known reg (e_cls o).
Proof.
  intros Hwf Ht Ho.
  destruct (wf_heap_has_key s e Hwf) as [u Hu]; [by eapply lookup_lt_Some|].
  by destruct (Ht u e o Hu Ho) as (_ & _ & ?).
Qed.

(** ** The effect of one record on the store *)

(** A [parse] writes to its own node only. *)
Lemma run_parse_others reg self_ p : ∀ s s',
  run_parse reg self_ p s = inr s' →
  ∀ e o, e ≠ self_ → heap s !! e = Some o → heap s' !! e = Some o.
Proof.
  induction p as [|x|u ty k IH|key v k IH]; intros s s'; simpl.
  - by intros [= <-].
  - done.
  - destruct (get_entity reg u ty s) as [r s1] eqn:Hg. intros Hr e o Hne Ho.
    eapply IH; [exact Hr|done|].
    destruct (dict_get u (entities s)) as [e'|] eqn:Hu.
    + rewrite (get_entity_hit _ _ _ _ e') in Hg by done. by injection Hg as _ <-.
    + rewrite get_entity_miss in Hg by done. injection Hg as _ <-.
      simpl. by apply lookup_app_l_Some.
  - intros Hr e o Hne Ho. eapply IH; [exact Hr|done|].
    simpl. by rewrite list_lookup_alter_ne.
Qed.

(** The nodes that a [parse] allocates are left as constructed. *)
Lemma run_parse_new reg self_ p : ∀ s s',
  self_ < length (heap s) → run_parse reg self_ p s = inr s' →
  ∀ e o, length (heap s) ≤ e → heap s' !! e = Some o → e_dict o = ∅.
Proof.
  induction p as [|x|u ty k IH|key v k IH]; intros s s' Hself; simpl.
  - intros [= <-] e o Hle Ho. apply lookup_lt_Some in Ho. lia.
  - done.
  - destruct (get_entity reg u ty s) as [r s1] eqn:Hg. intros Hr e o Hle Ho.
    destruct (dict_get u (entities s)) as [e'|] eqn:Hu.
    + rewrite (get_entity_hit _ _ _ _ e') in Hg by done. injection Hg as _ <-.
      by eapply IH.
    + rewrite get_entity_miss in Hg by done. injection Hg as _ <-.
      destruct (decide (e = length (heap s))) as [->|Hne].
      * assert (heap s' !! length (heap s)
                = Some (new (default AcisEntity (reg !! ty)))) as Hn.
        { eapply run_parse_others; [exact Hr|lia|].
          simpl. by apply list_lookup_middle. }
        rewrite Hn in Ho. by injection Ho as <-.
      * eapply (IH _ _ s'); [|exact Hr| |exact Ho]; simpl;
          rewrite length_app; simpl; lia.
  - intros Hr e o Hle Ho. eapply (IH _ s'); [|exact Hr| |exact Ho]; simpl;
      by rewrite length_alter.
Qed.

(** A [parse] that never assigns [key] leaves that attribute of every node,
    as it leaves every class. *)
Lemma run_parse_key reg self_ key p :
  never_stores key p → ∀ s s',
  run_parse reg self_ p s = inr s' →
  ∀ e o, heap s !! e = Some o →
         ∃ o', heap s' !! e = Some o' ∧ e_cls o' = e_cls o ∧
               e_dict o' !! key = e_dict o !! key.
Proof.
  induction 1 as [|x|u ty k Hk IH|key' v k Hne Hk IH]; intros s s'; simpl.
  - intros [= <-] e o Ho. by exists o.
  - done.
  - destruct (get_entity reg u ty s) as [r s1] eqn:Hg. intros Hr e o Ho.
    eapply IH; [exact Hr|].
    destruct (dict_get u (entities s)) as [e'|] eqn:Hu.
    + rewrite (get_entity_hit _ _ _ _ e') in Hg by done. by injection Hg as _ <-.
    + rewrite get_entity_miss in Hg by done. injection Hg as _ <-.
      simpl. by apply lookup_app_l_Some.
  - intros Hr e o Ho. destruct (decide (e = self_)) as [->|Hes].
    + destruct (IH _ _ Hr self_ (set_field key' v o)) as (o' & Ho' & Hc & Hd).
      { simpl. by rewrite list_lookup_alter_eq, Ho. }
      exists o'. split; [done|]. split; [done|].
      rewrite Hd. simpl. by rewrite lookup_insert_ne.
    + eapply IH; [exact Hr|]. simpl. by rewrite list_lookup_alter_ne.
Qed.

(** Well-formedness along a load. *)
Lemma wf_run_parse reg self_ p : ∀ s s',
  wf s → run_parse reg self_ p s = inr s' → wf s'.
Proof.
  induction p as [|e|u ty k IH|key v k IH]; intros s s' Hwf; simpl.
  - by intros [= <-].
  - done.
  - pose proof (get_entity_wf reg u ty s Hwf) as Hwf1.
    destruct (get_entity reg u ty s) as [r s1]. by apply IH.
  - apply IH. by apply setattr_wf.
Qed.

Lemma wf_call_parse reg e args s s' :
  wf s → call_parse reg e args s = inr s' → wf s'.
Proof.
  intros Hwf. unfold call_parse. destruct (heap s !! e) as [o|].
  - by apply wf_run_parse.
  - by intros [= <-].
Qed.

Lemma wf_attach {T} reg (r : RawEntity T) s : wf s → wf (attach reg r s).2.
Proof.
  intros Hwf. unfold attach.
  pose proof (get_entity_wf reg (r_uid r) (r_name r) s Hwf) as Hwf1.
  destruct (get_entity reg (r_uid r) (r_name r) s) as [e s1]. simpl in Hwf1.
  destruct (is_null_ptr (r_attributes r)); simpl; [by apply setattr_wf|].
  pose proof (get_entity_wf reg (r_uid r) (r_name r)
                (setattr e (set_id (r_id r)) s1)
                (setattr_wf _ _ _ Hwf1)) as Hwf2.
  destruct (get_entity reg (r_uid r) (r_name r) _) as [a s2].
  by apply setattr_wf.
Qed.

Lemma wf_load_record {T} (mk : list T → Z → DataParser) reg r s s' :
  wf s → load_record mk reg r s = inr s' → wf s'.
Proof.
  intros Hwf. rewrite load_record_attach. apply wf_call_parse.
  by apply wf_attach.
Qed.

Lemma wf_load_loop {T} (mk : list T → Z → DataParser) reg rs : ∀ s s',
  wf s → load_loop mk reg rs s = inr s' → wf s'.
Proof.
  induction rs as [|r rs IH]; intros s s' Hwf; simpl.
  - by intros [= <-].
  - destruct (load_record mk reg r s) as [e|s1] eqn:Hr; [done|].
    apply IH. by eapply wf_load_record.
Qed.

(** The loop body up to [parse]: one lookup or allocation, then the two
    assignments to the record's node. *)
Lemma attach_as_update {T} reg (r : RawEntity T) s :
  attach reg r s =
  ((get_entity reg (r_uid r) (r_name r) s).1,
   setattr (get_entity reg (r_uid r) (r_name r) s).1
     (stamp (get_entity reg (r_uid r) (r_name r) s).1 r)
     (get_entity reg (r_uid r) (r_name r) s).2).
Proof.
  unfold attach, stamp.
  pose proof (get_entity_cached reg (r_uid r) (r_name r) s) as Hc.
  destruct (get_entity reg (r_uid r) (r_name r) s) as [e s1]. simpl in *.
  destruct (is_null_ptr (r_attributes r)); simpl; [done|].
  rewrite (get_entity_hit _ _ _ _ e) by done.
  unfold setattr. simpl. by rewrite list_alter_alter_eq.
Qed.

Lemma stamp_cls {T} e (r : RawEntity T) o : e_cls (stamp e r o) = e_cls o.
Proof. unfold stamp. by destruct (is_null_ptr _). Qed.

Lemma stamp_id {T} e (r : RawEntity T) o :
  e_dict (stamp e r o) !! "id" = Some (VInt (r_id r)).
Proof.
  unfold stamp. destruct (is_null_ptr _); simpl.
  - apply lookup_insert_eq.
  - rewrite lookup_insert_ne by done. apply lookup_insert_eq.
Qed.

Lemma stamp_attributes {T} e (r : RawEntity T) o :
  e_dict (stamp e r o) !! "attributes" =
  if is_null_ptr (r_attributes r) then e_dict o !! "attributes"
  else Some (VRef e).
Proof.
  unfold stamp. destruct (is_null_ptr _); simpl.
  - by rewrite lookup_insert_ne.
  - apply lookup_insert_eq.
Qed.

Lemma stamp_other {T} e (r : RawEntity T) o key :
  key ≠ "id" → key ≠ "attributes" →
  e_dict (stamp e r o) !! key = e_dict o !! key.
Proof.
  intros H1 H2. unfold stamp. destruct (is_null_ptr _); simpl.
  - by rewrite lookup_insert_ne.
  - by rewrite !lookup_insert_ne.
Qed.

(** What processing one record does to the store.  [o1] is the record's node
    before its turn, found or freshly constructed; after the turn the node
    has the class of [o1] and, for every attribute that the [parse] of that
    class never assigns, the value that the loop body gave it; no other node
    of the store has changed, and the nodes that the [parse] allocated are as
    constructed. *)
Lemma load_record_effect {T} (mk : list T → Z → DataParser) reg r s s' :
  wf s → load_record mk reg r s = inr s' →
  ∃ e o1 o',
    dict_get (r_uid r) (entities s') = Some e ∧
    heap s' !! e = Some o' ∧ e_cls o' = e_cls o1 ∧
    match dict_get (r_uid r) (entities s) with
    | Some e0 => e = e0 ∧ heap s !! e = Some o1
    | None => e = length (heap s) ∧
              o1 = new (default AcisEntity (reg !! r_name r))
    end ∧
    (∀ key, (∀ args, never_stores key (cls_parse (e_cls o1) args)) →
            e_dict o' !! key = e_dict (stamp e r o1) !! key) ∧
    (∀ e0 o0, e0 ≠ e → heap s !! e0 = Some o0 → heap s' !! e0 = Some o0) ∧
    (∀ e0 o0, e0 ≠ e → length (heap s) ≤ e0 → heap s' !! e0 = Some o0 →
              e_dict o0 = ∅).
Proof.
  intros Hwf. rewrite load_record_attach, attach_as_update. simpl.
  assert (∃ e s1 o1,
    get_entity reg (r_uid r) (r_name r) s = (e, s1) ∧
    e < length (heap s1) ∧ heap s1 !! e = Some o1 ∧
    dict_get (r_uid r) (entities s1) = Some e ∧
    match dict_get (r_uid r) (entities s) with
    | Some e0 => e = e0 ∧ heap s !! e = Some o1
    | None => e = length (heap s) ∧
              o1 = new (default AcisEntity (reg !! r_name r))
    end ∧
    (∀ e0 o0, heap s !! e0 = Some o0 → heap s1 !! e0 = Some o0) ∧
    (∀ e0, e0 ≠ e → length (heap s) ≤ e0 → length (heap s1) ≤ e0))
    as (e & s1 & o1 & Hg & Hv & Ho1 & Hc & Hcase & Hold & Hnew).
  { destruct (dict_get (r_uid r) (entities s)) as [e0|] eqn:Hu.
    - destruct (lookup_lt_is_Some_2 (heap s) e0) as [o1 Ho1];
        [by eapply wf_ref_valid|].
      exists e0, s, o1. rewrite (get_entity_hit _ _ _ _ e0) by done.
      split; [done|]. split; [by eapply wf_ref_valid|]. by repeat split.
    - eexists _, _, _. rewrite get_entity_miss by done.
      split; [done|]. simpl. rewrite length_app. simpl.
      split; [lia|]. split; [by apply list_lookup_middle|].
      split; [rewrite dict_get_app, Hu; simpl; by rewrite decide_True|].
      split; [done|]. split; [intros e0 o0 H0; by apply lookup_app_l_Some|].
      intros e0 Hne Hle. lia. }
  rewrite Hg. simpl. unfold call_parse. simpl.
  rewrite list_lookup_alter_eq, Ho1. simpl. rewrite stamp_cls.
  set (s3 := setattr e (stamp e r) s1).
  set (p := cls_parse (e_cls o1) (mk (r_data r) (version s1))).
  intros Hp.
  assert (heap s3 !! e = Some (stamp e r o1)) as Ho3.
  { subst s3. unfold setattr. simpl. by rewrite list_lookup_alter_eq, Ho1. }
  pose proof (ext_run_parse _ _ _ _ _ Hp) as (_ & Hd & Hh).
  destruct (Hh _ _ Ho3) as (o' & Ho' & Hc').
  exists e, o1, o'. split; [by apply Hd|]. split; [done|].
  split; [by rewrite Hc', stamp_cls|]. split; [done|]. split; [|split].
  - intros key Hkey.
    destruct (run_parse_key reg e key p (Hkey _) _ _ Hp e _ Ho3)
      as (o'' & Ho'' & _ & Hk).
    rewrite Ho' in Ho''. by injection Ho'' as <-.
  - intros e0 o0 Hne H0. eapply run_parse_others; [exact Hp|done|].
    subst s3. simpl. rewrite list_lookup_alter_ne by done. by apply Hold.
  - intros e0 o0 Hne Hle H0. eapply run_parse_new; [|exact Hp| |exact H0].
    + subst s3. simpl. by rewrite length_alter.
    + subst s3. simpl. rewrite length_alter. by apply Hnew.
Qed.

Lemma stamp_absorb {T} e (r : RawEntity T) o c key :
  e_dict o !! key = e_dict (stamp e r (new c)) !! key ∨ e_dict o !! key = None →
  e_dict (stamp e r o) !! key = e_dict (stamp e r (new c)) !! key.
Proof.
  destruct (decide (key = "id")) as [->|Hid]; [by rewrite !stamp_id|].
  destruct (decide (key = "attributes")) as [->|Hat].
  - rewrite !stamp_attributes. destruct (is_null_ptr _); [|done].
    by intros [->| ->].
  - rewrite !stamp_other by done. by intros [->| ->].
Qed.

Lemma keeps_cls key o o' : e_cls o' = e_cls o → keeps key o → keeps key o'.
Proof. intros Hc Hk args. rewrite Hc. apply Hk. Qed.

(** The links of the loader along a load. *)
Lemma links_tracked_init v : links_tracked (Loader_init v).
Proof. by intros e o a He. Qed.

Lemma load_record_links {T} (mk : list T → Z → DataParser) reg r s s' :
  wf s → links_tracked s → load_record mk reg r s = inr s' →
  links_tracked s'.
Proof.
  intros Hwf Hl Hr e0 o0 a H0 Hk Ha.
  destruct (load_record_effect mk reg r s s' Hwf Hr)
    as (e & o1 & o' & Hu & Ho' & Hc & Hcase & Hkey & Hold & Hnew).
  destruct (decide (e0 = e)) as [->|Hne].
  - rewrite Ho' in H0. injection H0 as <-.
    assert (keeps "attributes" o1) as Hk1 by (by eapply keeps_cls).
    unfold e_attributes in Ha. rewrite (Hkey _ Hk1), stamp_attributes in Ha.
    destruct (is_null_ptr (r_attributes r)); [|by injection Ha as <-].
    destruct (dict_get (r_uid r) (entities s)) as [e1|].
    + destruct Hcase as [-> Ho1]. by apply (Hl e1 o1 a).
    + destruct Hcase as [_ ->]. simpl in Ha. by rewrite lookup_empty in Ha.
  - destruct (decide (e0 < length (heap s))) as [Hlt|Hge].
    + destruct (lookup_lt_is_Some_2 (heap s) e0 Hlt) as [o2 H2].
      rewrite (Hold e0 o2 Hne H2) in H0. injection H0 as <-.
      by apply (Hl e0 o2 a).
    + unfold e_attributes in Ha.
      rewrite (Hnew e0 o0 Hne ltac:(lia) H0), lookup_empty in Ha. done.
Qed.

Lemma load_loop_links {T} (mk : list T → Z → DataParser) reg rs : ∀ s s',
  wf s → links_tracked s → load_loop mk reg rs s = inr s' →
  links_tracked s'.
Proof.
  induction rs as [|r rs IH]; intros s s' Hwf Hl; simpl.
  - by intros [= <-].
  - destruct (load_record mk reg r s) as [e|s1] eqn:Hr; [done|].
    apply IH; [by eapply wf_load_record|by eapply load_record_links].
Qed.

(** The nodes of the processed records along a load. *)
Lemma load_record_stamped {T} (mk : list T → Z → DataParser) reg r done s s' :
  wf s → tracked reg (λ u, ∃ r', r' ∈ done ∧ r_uid r' = u) s →
  identity_keyed (done ++ [r]) → stamped done s →
  load_record mk reg r s = inr s' → stamped (done ++ [r]) s'.
Proof.
  intros Hwf Ht Hkeyed Hst Hr r' Hr'.
  destruct (load_record_effect mk reg r s s' Hwf Hr)
    as (e & o1 & o' & Hu & Ho' & Hc & Hcase & Hkey & Hold & Hnew).
  pose proof (wf_load_record mk reg r s s' Hwf Hr) as Hwf'.
  pose proof (ext_load_record mk reg r s s' Hr) as (_ & Hd & _).
  destruct (decide (r_uid r' = r_uid r)) as [Heq|Hneq].
  - assert (r' = r) as ->.
    { apply Hkeyed; [done| |done]. apply elem_of_app. right. by left. }
    exists e, o'. split; [done|]. split; [done|]. intros key Hk.
    assert (keeps key o1) as Hk1 by (by eapply keeps_cls).
    rewrite (Hkey _ Hk1), Hc. apply stamp_absorb.
    destruct (dict_get (r_uid r) (entities s)) as [e1|] eqn:Hu1.
    + destruct Hcase as [-> Ho1].
      destruct (decide (e_dict o1 = ∅)) as [Hemp|Hemp].
      { right. by rewrite Hemp, lookup_empty. }
      destruct (Ht _ _ _ Hu1 Ho1) as (HD & _).
      destruct (HD Hemp) as (r2 & Hr2 & Hu2).
      assert (r2 = r) as ->.
      { apply Hkeyed; [|apply elem_of_app; right; by left|done].
        apply elem_of_app. by left. }
      destruct (Hst r Hr2) as (e2 & o2 & He2 & Ho2 & Hk2).
      rewrite Hu1 in He2. injection He2 as <-.
      rewrite Ho1 in Ho2. injection Ho2 as <-. left. by apply Hk2.
    + destruct Hcase as [_ ->]. right. apply lookup_empty.
  - apply elem_of_app in Hr' as [Hr'|Hr'];
      [|apply list_elem_of_singleton in Hr'; by subst].
    destruct (Hst r' Hr') as (e2 & o2 & He2 & Ho2 & Hk2).
    exists e2, o2. split; [by apply Hd|]. split; [|done].
    apply Hold; [|done]. intros ->. apply Hneq.
    eapply wf_ref_inj; [exact Hwf'|by apply Hd|done].
Qed.

Lemma load_loop_stamped {T} (mk : list T → Z → DataParser) reg rs :
  ∀ done s s',
  wf s → tracked reg (λ u, ∃ r', r' ∈ done ∧ r_uid r' = u) s →
  identity_keyed (done ++ rs) → stamped done s →
  load_loop mk reg rs s = inr s' → stamped (done ++ rs) s'.
Proof.
  induction rs as [|r rs IH]; intros done s s' Hwf Ht Hkeyed Hst; simpl.
  - intros [= <-]. by rewrite app_nil_r.
  - destruct (load_record mk reg r s) as [e|s1] eqn:Hr; [done|].
    replace (done ++ r :: rs) with ((done ++ [r]) ++ rs) in *
      by (by rewrite <- app_assoc).
    apply IH; [by eapply wf_load_record| |done|].
    + destruct (load_record_inv reg mk _ _ _ _ Hwf Ht Hr) as (_ & _ & Ht1 & _).
      eapply tracked_mono; [|exact Ht1]. intros u [->|(r' & Hr' & <-)].
      * exists r. split; [|done]. apply elem_of_app. right. by left.
      * exists r'. split; [|done]. apply elem_of_app. by left.
    + eapply load_record_stamped; [done|done| |done|done].
      intros r1 r2 H1 H2. apply Hkeyed; apply elem_of_app; by left.
Qed.

Lemma load_loop_stamped_init {T} (mk : list T → Z → DataParser) reg rs v s :
  identity_keyed rs → load_loop mk reg rs (Loader_init v) = inr s →
  stamped rs s.
Proof.
  intros Hkeyed Hl.
  apply (load_loop_stamped mk reg rs [] (Loader_init v) s);
    [apply wf_init|apply tracked_init|done| |done].
  intros r Hr. by apply elem_of_nil in Hr.
Qed.

(** * The claims *)

(** C3: resolution by record identity memoizes.  When [get_entity] answers
    [e] for an identity, then: if the identity was not cached, [e] is a node
    freshly constructed from the registry (the generic class when the type is
    not registered) and stored under the identity; if it was cached, the cached
    node is returned and nothing changes; after any further calls of
    [get_entity], in any order and with any type name, and after any records
    processed by either loader, a call for the same identity answers the same
    [e] and changes nothing; and the dictionary stays free of duplicates, in
    its keys and in its nodes, so that no identity has two nodes. *)
Theorem get_entity_memoizes reg s uid ty e s1 :
  get_entity reg uid ty s = (e, s1) →
  (dict_get uid (entities s) = None →
     e = length (heap s) ∧
     heap s1 = heap s ++ [new (default AcisEntity (reg !! ty))] ∧
     entities s1 = entities s ++ [(uid, e)]) ∧
  (∀ e0, dict_get uid (entities s) = Some e0 → e = e0 ∧ s1 = s) ∧
  (∀ calls ty',
     get_entity reg uid ty' (run_calls reg calls s1)
     = (e, run_calls reg calls s1)) ∧
  (∀ records s2 ty', SabLoader.load_entities reg records s1 = inr s2 →
     get_entity reg uid ty' s2 = (e, s2)) ∧
  (∀ records s2 ty', SatLoader.load_entities reg records s1 = inr s2 →
     get_entity reg uid ty' s2 = (e, s2)) ∧
  (wf s → NoDup (entities s1).*1 ∧ NoDup (entities s1).*2).
Proof.
  intros Hg.
  assert (dict_get uid (entities s1) = Some e) as Hc.
  { pose proof (get_entity_cached reg uid ty s) as H. by rewrite Hg in H. }
  split; [|split; [|split; [|split; [|split]]]].
  - intros Hn. rewrite get_entity_miss in Hg by done.
    injection Hg as <- <-. done.
  - intros e0 H0. rewrite (get_entity_hit _ _ _ _ e0) in Hg by done.
    by injection Hg as <- <-.
  - intros calls ty'. apply get_entity_hit.
    by apply (ext_run_calls reg calls s1).
  - intros records s2 ty' Hl. apply get_entity_hit.
    rewrite sab_load_entities_eq in Hl. by apply (ext_load_loop _ _ _ _ _ Hl).
  - intros records s2 ty' Hl. apply get_entity_hit.
    rewrite sat_load_entities_eq in Hl. by apply (ext_load_loop _ _ _ _ _ Hl).
  - intros Hwf. pose proof (get_entity_wf reg uid ty s Hwf) as Hwf1.
    rewrite Hg in Hwf1. split; [apply Hwf1 | by apply wf_values_NoDup].
Qed.


Lemma get_entity_memoizes_witness :
  get_entity ENTITY_TYPES 7 "body" (Loader_init 700)
  = (0, alloc 7 Body (Loader_init 700)) ∧
  (dict_get 7 (entities (Loader_init 700)) = None →
     0 = length (heap (Loader_init 700)) ∧
     heap (alloc 7 Body (Loader_init 700))
     = heap (Loader_init 700)
       ++ [new (default AcisEntity (ENTITY_TYPES !! "body"))] ∧
     entities (alloc 7 Body (Loader_init 700))
     = entities (Loader_init 700) ++ [(7, 0)]) ∧
  (∀ calls ty',
     get_entity ENTITY_TYPES 7 ty'
       (run_calls ENTITY_TYPES calls (alloc 7 Body (Loader_init 700)))
     = (0, run_calls ENTITY_TYPES calls (alloc 7 Body (Loader_init 700)))).
Proof.
  assert (get_entity ENTITY_TYPES 7 "body" (Loader_init 700)
          = (0, alloc 7 Body (Loader_init 700))) as H by reflexivity.
  split; [exact H|].
  destruct (get_entity_memoizes _ _ _ _ _ _ H) as (H1 & _ & H3 & _).
  split; [exact H1 | exact H3].
Defined.

(** C9: [register] overwrites and is idempotent.  It is a total function of
    the registry; registering [c2] after [c1] under one type name leaves the
    registry that registering [c2] alone gives, a node constructed for that
    name is then an instance of [c2], and registering a class twice is
    registering it once. *)
Theorem register_idempotent_overwrite c1 c2 reg :
  cls_type c1 = cls_type c2 →
  register c2 (register c1 reg) = register c2 reg ∧
  register c2 (register c1 reg) !! cls_type c1 = Some c2 ∧
  (∀ uid s, dict_get uid (entities s) = None →
     ∃ s', get_entity (register c2 (register c1 reg)) uid (cls_type c1) s
           = (length (heap s), s') ∧
           heap s' !! length (heap s) = Some (new c2)) ∧
  register c1 (register c1 reg) = register c1 reg.
Proof.
  intros Hty. unfold register. rewrite Hty.
  split; [apply insert_insert_eq|]. split; [apply lookup_insert_eq|].
  split; [|apply insert_insert_eq].
  intros uid s Hu. rewrite get_entity_miss by done.
  eexists. split; [done|]. simpl.
  rewrite lookup_insert_eq. simpl. by apply list_lookup_middle.
Qed.

Lemma register_idempotent_overwrite_witness :
  cls_type (mkClass "body" false (λ _, PRaise (FormatError "x")))
  = cls_type Body ∧
  register Body (register (mkClass "body" false (λ _, PRaise (FormatError "x"))) ∅)
  = register Body ∅ ∧
  register Body (register (mkClass "body" false (λ _, PRaise (FormatError "x"))) ∅)
    !! "body" = Some Body.
Proof.
  split; [reflexivity|].
  destruct (register_idempotent_overwrite
              (mkClass "body" false (λ _, PRaise (FormatError "x"))) Body ∅
              eq_refl) as (H1 & H2 & _).
  split; [exact H1 | exact H2].
Defined.

(** C4: [load] dispatches on the type of its argument alone.  A [bytes] or
    [bytearray] value goes to [SabLoader.load], a [str] to [SatLoader.load];
    for a value of any other type the result is the TypeError, whatever the
    tokenizers and the registry are: neither tokenizer is consulted. *)
Theorem load_dispatches_on_type parse_sab parse_sat reg data :
  (∀ b, data = PyBytes b ∨ data = PyByteArray b →
        load parse_sab parse_sat reg data = SabLoader.load parse_sab reg b) ∧
  (∀ t, data = PyStr t →
        load parse_sab parse_sat reg data = SatLoader.load parse_sat reg t) ∧
  (is_bytes_like data = false → is_str data = false →
     ∀ parse_sab' parse_sat' reg',
       load parse_sab' parse_sat' reg' data
       = inl (TypeError ("invalid type of data: " +:+ type_repr data))).
Proof.
  split; [|split].
  - by intros b [->| ->].
  - by intros t ->.
  - by destruct data.
Qed.

Lemma load_dispatches_on_type_witness :
  is_bytes_like (PyInt 123) = false ∧ is_str (PyInt 123) = false ∧
  load (λ _, inl (FormatError "sab")) (λ _, inl (FormatError "sat"))
    ENTITY_TYPES (PyInt 123)
  = inl (TypeError "invalid type of data: <class 'int'>").
Proof.
  split; [reflexivity|]. split; [reflexivity|].
  exact (proj2 (proj2 (load_dispatches_on_type
                         (λ _, inl (FormatError "sab"))
                         (λ _, inl (FormatError "sat")) ENTITY_TYPES (PyInt 123)))
           eq_refl eq_refl _ _ _).
Defined.

(** ** The body collector *)

Lemma elem_of_bodies s e :
  e ∈ bodies s ↔
  e ∈ (entities s).*2 ∧
  ∃ o, heap s !! e = Some o ∧ cls_is_body (e_cls o) = true.
Proof.
  unfold bodies. rewrite list_elem_of_filter. unfold isinstance_Body.
  split.
  - intros [Hb Hin]. split; [done|].
    destruct (heap s !! e) as [o|]; [|done]. exists o. split; [done|].
    by apply Is_true_true.
  - intros [Hin (o & -> & Hb)]. split; [|done]. by apply Is_true_true.
Qed.

Lemma bodies_wf s :
  wf s →
  (∀ e, e ∈ bodies s ↔
        ∃ o, heap s !! e = Some o ∧ cls_is_body (e_cls o) = true) ∧
  bodies s
  = filter (λ e, isinstance_Body (heap s) e) (seq 0 (length (heap s))) ∧
  NoDup (bodies s).
Proof.
  intros Hwf. split; [|split].
  - intros e. rewrite elem_of_bodies. split; [by intros [_ ?]|].
    intros (o & Ho & Hb). split; [|by exists o].
    destruct Hwf as [_ ->]. apply elem_of_seq.
    apply lookup_lt_Some in Ho. lia.
  - unfold bodies. by destruct Hwf as [_ ->].
  - unfold bodies. apply NoDup_filter. by apply wf_values_NoDup.
Qed.

(** C10: a node that exists only because its identity was referred to has no
    [id].  After [load_entities] of either loader, a memoized identity that
    is the identity of no record of the stream has a node whose [id] is unset,
    and reading it raises the AttributeError. *)
Theorem referenced_only_node_has_no_id reg v rsb rst :
  (∀ s u e o, SabLoader.load_entities reg rsb (Loader_init v) = inr s →
     dict_get u (entities s) = Some e → heap s !! e = Some o →
     (∀ r, r ∈ rsb → r_uid r ≠ u) →
     e_id o = None ∧ read_id o = inl (AttributeError "id")) ∧
  (∀ s u e o, SatLoader.load_entities reg rst (Loader_init v) = inr s →
     dict_get u (entities s) = Some e → heap s !! e = Some o →
     (∀ r, r ∈ rst → r_uid r ≠ u) →
     e_id o = None ∧ read_id o = inl (AttributeError "id")).
Proof.
  assert (∀ T (mk : list T → Z → DataParser) rs s u e o,
    load_loop mk reg rs (Loader_init v) = inr s →
    dict_get u (entities s) = Some e → heap s !! e = Some o →
    (∀ r, r ∈ rs → r_uid r ≠ u) →
    e_id o = None ∧ read_id o = inl (AttributeError "id")) as H.
  { intros T mk rs s u e o Hl Hu Ho Hnot.
    destruct (load_loop_from_init _ _ _ _ _ Hl) as (_ & _ & Ht & _).
    destruct (Ht u e o Hu Ho) as (Hid & _).
    assert (e_id o = None) as Hnone.
    { destruct (decide (e_dict o = ∅)) as [Hemp|Hemp].
      - unfold e_id. by rewrite Hemp, lookup_empty.
      - destruct (Hid Hemp) as (r & Hr & Hru). by destruct (Hnot r Hr). }
    split; [done|]. unfold read_id. by rewrite Hnone. }
  split; intros s u e o Hl.
  - rewrite sab_load_entities_eq in Hl. by eapply H.
  - rewrite sat_load_entities_eq in Hl. by eapply H.
Qed.

(** C5: a record with a null attribute pointer gets no [attributes] link
    from the loader.  After [load_entities] of either loader over a stream
    whose records are told apart by their identity, the node of every record
    whose attribute pointer is the null pointer has [attributes] equal to
    [None], provided the [parse] of the node's class does not itself assign
    [self.attributes] (the [parse] of [AcisEntity], which [Body] inherits,
    assigns nothing). *)
Theorem null_pointer_leaves_attributes_absent reg v rsb rst :
  (∀ s r, identity_keyed rsb →
     SabLoader.load_entities reg rsb (Loader_init v) = inr s →
     r ∈ rsb → is_null_ptr (r_attributes r) = true →
     ∃ e o, dict_get (r_uid r) (entities s) = Some e ∧
            heap s !! e = Some o ∧
            (keeps "attributes" o → e_attributes o = None)) ∧
  (∀ s r, identity_keyed rst →
     SatLoader.load_entities reg rst (Loader_init v) = inr s →
     r ∈ rst → is_null_ptr (r_attributes r) = true →
     ∃ e o, dict_get (r_uid r) (entities s) = Some e ∧
            heap s !! e = Some o ∧
            (keeps "attributes" o → e_attributes o = None)).
Proof.
  assert (∀ T (mk : list T → Z → DataParser) rs s r,
    identity_keyed rs →
    load_loop mk reg rs (Loader_init v) = inr s →
    r ∈ rs → is_null_ptr (r_attributes r) = true →
    ∃ e o, dict_get (r_uid r) (entities s) = Some e ∧
           heap s !! e = Some o ∧
           (keeps "attributes" o → e_attributes o = None)) as H.
  { intros T mk rs s r Hkey Hl Hr Hnull.
    destruct (load_loop_stamped_init mk reg rs v s Hkey Hl r Hr)
      as (e & o & He & Ho & Hst).
    exists e, o. split; [done|]. split; [done|]. intros Hk.
    unfold e_attributes. rewrite (Hst _ Hk), stamp_attributes, Hnull.
    apply lookup_empty. }
  split; intros s r Hkey Hl.
  - rewrite sab_load_entities_eq in Hl. by eapply H.
  - rewrite sat_load_entities_eq in Hl. by eapply H.
Qed.

(** ** A record of an unregistered type *)

Lemma filter_ext_elem {A} (P Q : A → Prop)
    `{∀ x, Decision (P x)} `{∀ x, Decision (Q x)} (l : list A) :
  (∀ x, x ∈ l → P x ↔ Q x) → filter P l = filter Q l.
Proof.
  induction l as [|x l IH]; intros Hl; [done|].
  rewrite !filter_cons, IH.
  - destruct (decide (P x)) as [HP|HP], (decide (Q x)) as [HQ|HQ]; try done.
    + destruct HQ. apply Hl; [by left|done].
    + destruct HP. apply Hl; [by left|done].
  - intros y Hy. apply Hl. by right.
Qed.

Lemma attach_fresh {T} reg (r : RawEntity T) s :
  dict_get (r_uid r) (entities s) = None →
  attach reg r s =
  (length (heap s),
   {| heap := heap s ++ [node_of reg (length (heap s)) r];
      entities := entities s ++ [(r_uid r, length (heap s))];
      version := version s |}).
Proof.
  intros Hu. rewrite attach_as_update, get_entity_miss by done.
  unfold setattr, alloc, node_of. simpl.
  rewrite alter_app_r_alt by done. by rewrite Nat.sub_diag.
Qed.

Lemma attach_hit {T} reg (r : RawEntity T) s e :
  dict_get (r_uid r) (entities s) = Some e →
  attach reg r s = (e, setattr e (stamp e r) s).
Proof.
  intros Hu. by rewrite attach_as_update, (get_entity_hit _ _ _ _ e).
Qed.

Lemma bodies_setattr e f s :
  (∀ o, e_cls (f o) = e_cls o) → bodies (setattr e f s) = bodies s.
Proof.
  intros Hf. unfold bodies. simpl. apply filter_ext_elem. intros e0 _.
  unfold isinstance_Body. destruct (decide (e0 = e)) as [->|Hne].
  - rewrite list_lookup_alter_eq. destruct (heap s !! e) as [o|]; [|done].
    simpl. by rewrite Hf.
  - by rewrite list_lookup_alter_ne.
Qed.

Lemma e_fields_empty_type o : e_fields o = ∅ → e_dict o !! "type" = None.
Proof.
  intros Hf. unfold e_fields in Hf.
  assert (delete "id" (delete "attributes" (e_dict o)) !! "type" = None) as H
    by (by rewrite Hf, lookup_empty).
  by rewrite !lookup_delete_ne in H.
Qed.

(** A memoized node of the generic class reads as a placeholder. *)
Lemma generic_of_class reg D s u e o :
  tracked reg D s → dict_get u (entities s) = Some e → heap s !! e = Some o →
  e_cls o = AcisEntity → generic_node s u.
Proof.
  intros Ht Hu Ho Hc. exists e, o. split; [done|]. split; [done|].
  split; [done|]. destruct (Ht u e o Hu Ho) as (_ & Hf & _).
  assert (e_fields o = ∅) as Hemp.
  { destruct (decide (e_fields o = ∅)) as [|Hne]; [done|].
    destruct (Hf Hne) as [args Hargs]. by rewrite Hc in Hargs. }
  split; [|done]. unfold read_type.
  by rewrite (e_fields_empty_type o Hemp), Hc.
Qed.

Lemma load_record_generic {T} (mk : list T → Z → DataParser) reg D r s :
  wf s → tracked reg D s → reg !! r_name r = None →
  (∀ e o, dict_get (r_uid r) (entities s) = Some e → heap s !! e = Some o →
          e_cls o = AcisEntity) →
  ∃ s2, load_record mk reg r s = inr s2 ∧ bodies s2 = bodies s ∧
        generic_node s2 (r_uid r).
Proof.
  intros Hwf Ht Hreg Hgen.
  assert (∃ s2, load_record mk reg r s = inr s2 ∧ bodies s2 = bodies s ∧
                ∃ e o, dict_get (r_uid r) (entities s2) = Some e ∧
                       heap s2 !! e = Some o ∧ e_cls o = AcisEntity)
    as (s2 & Hr & Hb & e & o & Hu & Ho & Hc).
  { rewrite load_record_attach.
    destruct (dict_get (r_uid r) (entities s)) as [e|] eqn:Hu.
    - rewrite (attach_hit _ _ _ e) by done. simpl.
      destruct (lookup_lt_is_Some_2 (heap s) e) as [o Ho];
        [by eapply wf_ref_valid|].
      pose proof (Hgen e o eq_refl Ho) as Hc.
      exists (setattr e (stamp e r) s). split.
      { unfold call_parse. simpl. rewrite list_lookup_alter_eq, Ho. simpl.
        by rewrite stamp_cls, Hc. }
      split; [apply bodies_setattr; intros; apply stamp_cls|].
      exists e, (stamp e r o). split; [done|]. split.
      + simpl. by rewrite list_lookup_alter_eq, Ho.
      + by rewrite stamp_cls.
    - rewrite attach_fresh by done. unfold node_of. rewrite Hreg. simpl.
      eexists. split.
      { unfold call_parse. simpl. rewrite list_lookup_middle by done.
        simpl. by rewrite stamp_cls. }
      split.
      + unfold bodies. simpl. rewrite fmap_app, filter_app. simpl.
        rewrite filter_cons_False, filter_nil, app_nil_r.
        * apply filter_ext_elem. intros e He. unfold isinstance_Body.
          rewrite lookup_app_l; [done|].
          destruct Hwf as [_ Hv]. rewrite Hv in He.
          apply elem_of_seq in He. lia.
        * unfold isinstance_Body. rewrite list_lookup_middle by done.
          simpl. rewrite stamp_cls. simpl. tauto.
      + eexists _, _. split.
        { simpl. rewrite dict_get_app, Hu. simpl. by rewrite decide_True. }
        split; [simpl; by apply list_lookup_middle|]. by rewrite stamp_cls. }
  exists s2. split; [done|]. split; [done|].
  destruct (load_record_inv reg mk D _ _ _ Hwf Ht Hr) as (_ & _ & Ht2 & _).
  by eapply generic_of_class.
Qed.

Lemma generic_node_persists {T} (mk : list T → Z → DataParser) reg D rs u s s' :
  wf s → tracked reg D s → generic_node s u →
  load_loop mk reg rs s = inr s' → generic_node s' u.
Proof.
  intros Hwf Ht (e & o & Hu & Ho & Hc & _ & _) Hl.
  destruct (load_loop_inv reg mk rs D _ _ Hwf Ht Hl)
    as (Hwf' & (_ & Hd & Hh) & Ht' & _).
  destruct (Hh _ _ Ho) as (o' & Ho' & Hc'). rewrite Hc in Hc'.
  eapply generic_of_class; [exact Ht'|by apply Hd|done|done].
Qed.

(** With the registry of the module, no [parse] does anything. *)
Lemma base_registry_known c :
  known ENTITY_TYPES c → c = AcisEntity ∨ c = Body.
Proof.
  intros [->|[k Hk]]; [by left|]. right. unfold ENTITY_TYPES, register in Hk.
  apply lookup_insert_Some in Hk as [[_ <-]|[_ Hk]]; [done|].
  by rewrite lookup_empty in Hk.
Qed.

Lemma load_loop_base_total {T} (mk : list T → Z → DataParser) rs : ∀ D s,
  wf s → tracked ENTITY_TYPES D s →
  ∃ s', load_loop mk ENTITY_TYPES rs s = inr s'.
Proof.
  induction rs as [|r rs IH]; intros D s Hwf Ht; simpl; [by eexists|].
  assert (∃ s1, load_record mk ENTITY_TYPES r s = inr s1) as [s1 Hr].
  { rewrite load_record_attach.
    destruct (attach ENTITY_TYPES r s) as [entity s3] eqn:Ha. simpl.
    destruct (attach_inv ENTITY_TYPES D _ _ _ _ Hwf Ht Ha)
      as (Hwf3 & _ & Ht3 & _).
    unfold call_parse. destruct (heap s3 !! entity) as [o|] eqn:Ho;
      [|by eexists].
    destruct (base_registry_known (e_cls o)) as [-> | ->];
      [by eapply tracked_known|by eexists..]. }
  rewrite Hr.
  destruct (load_record_inv ENTITY_TYPES mk D _ _ _ Hwf Ht Hr)
    as (Hwf1 & _ & Ht1 & _).
  by eapply IH.
Qed.

(** C2, as the code has it: a record of an unregistered type whose identity
    is not yet memoized, or is memoized to a node of the generic class (a
    forward reference or an earlier turn under an unregistered name), is
    processed without an exception; its node is an instance of the generic
    class, whose [type] reads "unsupported-entity" whatever the record's type
    name is, it has no attribute of a subclass, and it stays so until the end
    of the load; the record leaves [bodies()] as it was.  With the registry
    of the module, a load raises for no stream at all. *)
Theorem unregistered_type_degrades_to_generic reg v :
  (∀ (pre : list SabEntity) r s1,
     SabLoader.load_entities reg pre (Loader_init v) = inr s1 →
     reg !! r_name r = None →
     (∀ e o, dict_get (r_uid r) (entities s1) = Some e →
             heap s1 !! e = Some o → e_cls o = AcisEntity) →
     ∃ s2, SabLoader.load_entity reg r s1 = inr s2 ∧
           bodies s2 = bodies s1 ∧ generic_node s2 (r_uid r) ∧
           ∀ post s, SabLoader.load_entities reg post s2 = inr s →
                     generic_node s (r_uid r)) ∧
  (∀ (pre : list SatEntity) r s1,
     SatLoader.load_entities reg pre (Loader_init v) = inr s1 →
     reg !! r_name r = None →
     (∀ e o, dict_get (r_uid r) (entities s1) = Some e →
             heap s1 !! e = Some o → e_cls o = AcisEntity) →
     ∃ s2, SatLoader.load_entity reg r s1 = inr s2 ∧
           bodies s2 = bodies s1 ∧ generic_node s2 (r_uid r) ∧
           ∀ post s, SatLoader.load_entities reg post s2 = inr s →
                     generic_node s (r_uid r)) ∧
  (∀ rs, ∃ s, SabLoader.load_entities ENTITY_TYPES rs (Loader_init v) = inr s) ∧
  (∀ rs, ∃ s, SatLoader.load_entities ENTITY_TYPES rs (Loader_init v) = inr s).
Proof.
  assert (∀ T (mk : list T → Z → DataParser) pre r s1,
    load_loop mk reg pre (Loader_init v) = inr s1 →
    reg !! r_name r = None →
    (∀ e o, dict_get (r_uid r) (entities s1) = Some e →
            heap s1 !! e = Some o → e_cls o = AcisEntity) →
    ∃ s2, load_record mk reg r s1 = inr s2 ∧
          bodies s2 = bodies s1 ∧ generic_node s2 (r_uid r) ∧
          ∀ post s, load_loop mk reg post s2 = inr s →
                    generic_node s (r_uid r)) as H.
  { intros T mk pre r s1 Hl Hreg Hu.
    destruct (load_loop_from_init _ _ _ _ _ Hl) as (Hwf & _ & Ht & _).
    destruct (load_record_generic mk reg _ r s1 Hwf Ht Hreg Hu)
      as (s2 & Hr & Hb & Hg).
    exists s2. split; [done|]. split; [done|]. split; [done|].
    intros post s Hpost.
    destruct (load_record_inv reg mk _ _ _ _ Hwf Ht Hr) as (Hwf2 & _ & Ht2 & _).
    by eapply generic_node_persists. }
  split; [|split; [|split]].
  - intros pre r s1 Hl Hreg Hu. rewrite sab_load_entities_eq in Hl.
    destruct (H _ SabDataParser pre r s1 Hl Hreg Hu) as (s2 & ? & ? & ? & Hp).
    exists s2. split; [done|]. split; [done|]. split; [done|].
    intros post s Hs. rewrite sab_load_entities_eq in Hs. by eapply Hp.
  - intros pre r s1 Hl Hreg Hu. rewrite sat_load_entities_eq in Hl.
    destruct (H _ SatDataParser pre r s1 Hl Hreg Hu) as (s2 & ? & ? & ? & Hp).
    exists s2. split; [done|]. split; [done|]. split; [done|].
    intros post s Hs. rewrite sat_load_entities_eq in Hs. by eapply Hp.
  - intros rs. setoid_rewrite sab_load_entities_eq.
    eapply load_loop_base_total; [apply wf_init|].
    apply (tracked_init _ (λ _, False)).
  - intros rs. setoid_rewrite sat_load_entities_eq.
    eapply load_loop_base_total; [apply wf_init|].
    apply (tracked_init _ (λ _, False)).
Qed.

(** The record 102 of the unregistered type "unknown-xyz" is processed after
    a face that refers to it: its node exists already, as a forward
    reference. *)
Lemma unregistered_type_degrades_to_generic_witness :
  SabLoader.load_entities (register Face ENTITY_TYPES)
    [mkRaw 101 "face" 0 NullPtr [SabPtr (Ptr 102 "unknown-xyz")]]
    (Loader_init 700)
  = inr {| heap := [set_field "loop" (VRef 1) (set_id 0 (new Face));
                    new AcisEntity];
           entities := [(101, 0); (102, 1)];
           version := 700 |} ∧
  register Face ENTITY_TYPES
    !! r_name (mkRaw 102 "unknown-xyz" 1 NullPtr [] : SabEntity) = None ∧
  (∀ e o,
     dict_get 102 [(101, 0); (102, 1)] = Some e →
     [set_field "loop" (VRef 1) (set_id 0 (new Face)); new AcisEntity] !! e
     = Some o → e_cls o = AcisEntity) ∧
  ∃ s2,
    SabLoader.load_entity (register Face ENTITY_TYPES)
      (mkRaw 102 "unknown-xyz" 1 NullPtr [])
      {| heap := [set_field "loop" (VRef 1) (set_id 0 (new Face));
                  new AcisEntity];
         entities := [(101, 0); (102, 1)];
         version := 700 |} = inr s2 ∧
    bodies s2 = [] ∧ generic_node s2 102.
Proof.
  assert (∀ e o,
    dict_get 102 [(101, 0); (102, 1)] = Some e →
    [set_field "loop" (VRef 1) (set_id 0 (new Face)); new AcisEntity] !! e
    = Some o → e_cls o = AcisEntity) as Hgen.
  { intros e o [= <-] [= <-]. reflexivity. }
  split; [reflexivity|]. split; [reflexivity|]. split; [exact Hgen|].
  destruct (proj1 (unregistered_type_degrades_to_generic
                     (register Face ENTITY_TYPES) 700)
              [mkRaw 101 "face" 0 NullPtr [SabPtr (Ptr 102 "unknown-xyz")]]
              (mkRaw 102 "unknown-xyz" 1 NullPtr []) _
              eq_refl eq_refl Hgen) as (s2 & H1 & H2 & H3 & _).
  exists s2. split; [exact H1|]. split; [exact H2 | exact H3].
Defined.

(** C2 as it is stated fails: the node of a record of the unregistered type
    "unknown-xyz" does not carry that name. *)
Lemma unregistered_type_name_not_preserved :
  ∃ s e o,
    ENTITY_TYPES !! "unknown-xyz" = None ∧
    SabLoader.load_entities ENTITY_TYPES
      [mkRaw 101 "body" 0 NullPtr []; mkRaw 102 "unknown-xyz" 1 NullPtr []]
      (Loader_init 700) = inr s ∧
    dict_get 102 (entities s) = Some e ∧ heap s !! e = Some o ∧
    read_type o = VStr "unsupported-entity" ∧
    read_type o ≠ VStr "unknown-xyz".
Proof.
  eexists _, _, _. split; [reflexivity|]. split; [reflexivity|].
  split; [reflexivity|]. split; [reflexivity|]. split; [reflexivity|].
  discriminate.
Qed.

(** The condition on the memoized node is needed: when a face has referred to
    the identity 102 under the registered name "body", the record 102 of the
    unregistered type "unknown-xyz" gets the [Body] node and is returned by
    [bodies()]. *)
Lemma unregistered_record_of_registered_mention :
  ∃ s e o,
    register Face ENTITY_TYPES !! "unknown-xyz" = None ∧
    SabLoader.load_entities (register Face ENTITY_TYPES)
      [mkRaw 101 "face" 0 NullPtr [SabPtr (Ptr 102 "body")];
       mkRaw 102 "unknown-xyz" 1 NullPtr []]
      (Loader_init 700) = inr s ∧
    dict_get 102 (entities s) = Some e ∧ heap s !! e = Some o ∧
    e_cls o = Body ∧ read_type o = VStr "body" ∧ bodies s = [e].
Proof.
  eexists _, _, _. split; [reflexivity|]. split; [reflexivity|].
  split; [reflexivity|]. split; [reflexivity|]. split; [reflexivity|].
  split; reflexivity.
Qed.

(** ** The attribute link *)

(** Whatever the stream, an [attributes] link set by the loader points to the
    node that carries it. *)
Lemma attributes_link_is_self {T} (mk : list T → Z → DataParser) reg rs v s e o a :
  load_loop mk reg rs (Loader_init v) = inr s →
  heap s !! e = Some o → keeps "attributes" o →
  e_attributes o = Some a → a = VRef e.
Proof.
  intros Hl Ho Hk Ha.
  by apply (load_loop_links mk reg rs _ _ (wf_init v) (links_tracked_init v)
              Hl e o a).
Qed.

(** C1 fails on the code.  In a stream of two records where the first points
    to the second as its attribute record, both loaders attach to the node of
    the first record that node itself, not the node memoized for the
    second. *)
Theorem attributes_link_resolves_own_record :
  (∃ s e1 e2 o1,
     SabLoader.load_entities ENTITY_TYPES
       [mkRaw 101 "body" 0 (Ptr 102 "attrib") [];
        mkRaw 102 "attrib" 1 NullPtr []] (Loader_init 700) = inr s ∧
     dict_get 101 (entities s) = Some e1 ∧
     dict_get 102 (entities s) = Some e2 ∧
     heap s !! e1 = Some o1 ∧
     e_attributes o1 = Some (VRef e1) ∧ e_attributes o1 ≠ Some (VRef e2)) ∧
  (∃ s e1 e2 o1,
     SatLoader.load_entities ENTITY_TYPES
       [mkRaw 101 "body" 0 (Ptr 102 "attrib") [];
        mkRaw 102 "attrib" 1 NullPtr []] (Loader_init 700) = inr s ∧
     dict_get 101 (entities s) = Some e1 ∧
     dict_get 102 (entities s) = Some e2 ∧
     heap s !! e1 = Some o1 ∧
     e_attributes o1 = Some (VRef e1) ∧ e_attributes o1 ≠ Some (VRef e2)).
Proof.
  split; eexists _, _, _, _; (split; [reflexivity|]); (split; [reflexivity|]);
    (split; [reflexivity|]); (split; [reflexivity|]); (split; [reflexivity|]);
    discriminate.
Qed.

(** ** The two encodings, and renamed identities *)

Section simulation.
Context (reg : gmap string EntityClass) (φ : nat → nat) `{!Inj (=) (=) φ}.

Lemma dict_get_rename {V} (d : list (nat * V)) u :
  dict_get (φ u) (prod_map φ id <$> d) = dict_get u d.
Proof.
  induction d as [|[k x] d IH]; simpl; [done|].
  destruct (decide (u = k)) as [->|Hne].
  - by rewrite decide_True.
  - rewrite decide_False; [done|]. intros H. by apply (inj φ) in H.
Qed.

Lemma state_sim_bodies s t : state_sim φ s t → bodies t = bodies s.
Proof.
  intros [Hh Hd]. unfold bodies. rewrite Hh, Hd.
  rewrite <- list_fmap_compose. by f_equal.
Qed.

Lemma setattr_sim e f s t :
  state_sim φ s t → state_sim φ (setattr e f s) (setattr e f t).
Proof. intros [Hh Hd]. split; simpl; [by rewrite Hh | done]. Qed.

Lemma get_entity_sim u ty s t :
  state_sim φ s t →
  (get_entity reg (φ u) ty t).1 = (get_entity reg u ty s).1 ∧
  state_sim φ (get_entity reg u ty s).2 (get_entity reg (φ u) ty t).2.
Proof.
  intros [Hh Hd].
  assert (dict_get (φ u) (entities t) = dict_get u (entities s)) as Hg.
  { rewrite Hd. apply dict_get_rename. }
  destruct (dict_get u (entities s)) as [e|] eqn:Hu.
  - rewrite (get_entity_hit _ _ _ s e), (get_entity_hit _ _ _ t e) by done.
    by split.
  - rewrite !get_entity_miss by done. simpl. rewrite Hh. split; [done|].
    split; simpl; [by rewrite Hh|]. by rewrite Hd, Hh, fmap_app.
Qed.

Lemma run_parse_sim self_ p p' :
  prog_sim φ p p' → ∀ s t, state_sim φ s t →
  result_sim φ (run_parse reg self_ p s) (run_parse reg self_ p' t).
Proof.
  induction 1 as [|e|u ty k k' Hk IH|key v k k' Hk IH]; intros s t Hst; simpl;
    [done..| |].
  - destruct (get_entity_sim u ty s t Hst) as [He Hs].
    destruct (get_entity reg u ty s) as [r s1],
             (get_entity reg (φ u) ty t) as [r' t1]. simpl in *. subst r'.
    by apply IH.
  - apply IH. by apply setattr_sim.
Qed.

Lemma attach_sim {T T'} (r : RawEntity T) (r' : RawEntity T') s t :
  r_uid r' = φ (r_uid r) → r_name r' = r_name r → r_id r' = r_id r →
  ptr_sim φ (r_attributes r) (r_attributes r') →
  state_sim φ s t →
  (attach reg r' t).1 = (attach reg r s).1 ∧
  state_sim φ (attach reg r s).2 (attach reg r' t).2.
Proof.
  intros Hu Hn Hi Ha Hst. unfold attach. rewrite Hu, Hn, Hi.
  destruct (get_entity_sim (r_uid r) (r_name r) s t Hst) as [He Hs1].
  destruct (get_entity reg (r_uid r) (r_name r) s) as [e s1],
           (get_entity reg (φ (r_uid r)) (r_name r) t) as [e' t1].
  simpl in *. subst e'.
  pose proof (setattr_sim e (set_id (r_id r)) _ _ Hs1) as Hs2.
  assert (is_null_ptr (r_attributes r') = is_null_ptr (r_attributes r)) as ->.
  { by destruct (r_attributes r), (r_attributes r'). }
  destruct (is_null_ptr (r_attributes r)); simpl; [done|].
  destruct (get_entity_sim (r_uid r) (r_name r) _ _ Hs2) as [He' Hs3].
  destruct (get_entity reg (r_uid r) (r_name r) _) as [a s2'],
           (get_entity reg (φ (r_uid r)) (r_name r) _) as [a' t2'].
  simpl in *. subst a'. split; [done|]. by apply setattr_sim.
Qed.

Lemma load_record_sim {T T'} (mk : list T → Z → DataParser)
    (mk' : list T' → Z → DataParser) D r r' s t :
  wf s → tracked reg D s → state_sim φ s t →
  record_sim mk mk' reg φ (version s) (version t) r r' →
  result_sim φ (load_record mk reg r s) (load_record mk' reg r' t).
Proof.
  intros Hwf Ht Hst (Hu & Hn & Hi & Ha & Hp). rewrite !load_record_attach.
  destruct (attach_sim r r' s t Hu Hn Hi Ha Hst) as [He Hs3].
  pose proof (ext_attach reg r s) as (Hv & _).
  pose proof (ext_attach reg r' t) as (Hv' & _).
  destruct (attach reg r s) as [entity s3] eqn:Hat,
           (attach reg r' t) as [entity' t3].
  simpl in *. subst entity'. rewrite Hv, Hv'.
  destruct (attach_inv reg D _ _ _ _ Hwf Ht Hat) as (Hwf3 & _ & Ht3 & _).
  unfold call_parse. rewrite (proj1 Hs3).
  destruct (heap s3 !! entity) as [o|] eqn:Ho; [|done].
  apply run_parse_sim; [|done]. apply Hp. by eapply tracked_known.
Qed.

Lemma load_loop_sim {T T'} (mk : list T → Z → DataParser)
    (mk' : list T' → Z → DataParser) v v' rs rs' :
  Forall2 (record_sim mk mk' reg φ v v') rs rs' → ∀ D s t,
  wf s → tracked reg D s → state_sim φ s t →
  version s = v → version t = v' →
  result_sim φ (load_loop mk reg rs s) (load_loop mk' reg rs' t).
Proof.
  induction 1 as [|r r' rs rs' Hr Hrs IH]; intros D s t Hwf Ht Hst Hv Hv';
    simpl; [done|].
  pose proof (load_record_sim mk mk' D r r' s t Hwf Ht Hst) as Hsim.
  rewrite Hv, Hv' in Hsim. specialize (Hsim Hr).
  destruct (load_record mk reg r s) as [e|s1] eqn:Hl,
           (load_record mk' reg r' t) as [e'|t1] eqn:Hl'; try done.
  destruct (load_record_inv reg _ D _ _ _ Hwf Ht Hl)
    as (Hwf1 & (Hv1 & _) & Ht1 & _).
  apply ext_load_record in Hl' as (Hv1' & _).
  eapply IH; [done..| |]; congruence.
Qed.

Lemma load_loop_sim_init {T T'} (mk : list T → Z → DataParser)
    (mk' : list T' → Z → DataParser) v v' rs rs' :
  Forall2 (record_sim mk mk' reg φ v v') rs rs' →
  match load_loop mk reg rs (Loader_init v),
        load_loop mk' reg rs' (Loader_init v') with
  | inl e, inl e' => e' = e
  | inr s, inr t => bodies t = bodies s ∧ heap t = heap s
  | _, _ => False
  end.
Proof.
  intros Hrs.
  pose proof (load_loop_sim mk mk' v v' rs rs' Hrs (λ _, False)
                (Loader_init v) (Loader_init v') (wf_init v)
                (tracked_init _ _ v)) as H.
  destruct (load_loop mk reg rs (Loader_init v)) as [e|s],
           (load_loop mk' reg rs' (Loader_init v')) as [e'|t];
    try (by apply H).
  destruct H as [Hh Hd]; [done..|]. split; [|done].
  by apply state_sim_bodies.
Qed.

End simulation.

(** C6: after [load_entities] of either loader, [bodies()] lists exactly the
    nodes of the store whose class is [Body] or derives from it, each once, in
    the order in which the load created them; and the list is a function of
    the content of the stream alone: a stream of the same records under other
    identities gives the same list over the same store. *)
Theorem bodies_exactly_the_Body_nodes reg v rsb rst :
  (∀ s, SabLoader.load_entities reg rsb (Loader_init v) = inr s →
     (∀ e, e ∈ bodies s ↔
           ∃ o, heap s !! e = Some o ∧ cls_is_body (e_cls o) = true) ∧
     bodies s
     = filter (λ e, isinstance_Body (heap s) e) (seq 0 (length (heap s))) ∧
     NoDup (bodies s)) ∧
  (∀ s, SatLoader.load_entities reg rst (Loader_init v) = inr s →
     (∀ e, e ∈ bodies s ↔
           ∃ o, heap s !! e = Some o ∧ cls_is_body (e_cls o) = true) ∧
     bodies s
     = filter (λ e, isinstance_Body (heap s) e) (seq 0 (length (heap s))) ∧
     NoDup (bodies s)) ∧
  (∀ φ rsb' s s', Inj (=) (=) φ →
     Forall2 (record_sim SabDataParser SabDataParser reg φ v v) rsb rsb' →
     SabLoader.load_entities reg rsb (Loader_init v) = inr s →
     SabLoader.load_entities reg rsb' (Loader_init v) = inr s' →
     bodies s' = bodies s ∧ heap s' = heap s) ∧
  (∀ φ rst' s s', Inj (=) (=) φ →
     Forall2 (record_sim SatDataParser SatDataParser reg φ v v) rst rst' →
     SatLoader.load_entities reg rst (Loader_init v) = inr s →
     SatLoader.load_entities reg rst' (Loader_init v) = inr s' →
     bodies s' = bodies s ∧ heap s' = heap s).
Proof.
  split; [|split; [|split]].
  - intros s Hl. apply bodies_wf. rewrite sab_load_entities_eq in Hl.
    by destruct (load_loop_from_init _ _ _ _ _ Hl).
  - intros s Hl. apply bodies_wf. rewrite sat_load_entities_eq in Hl.
    by destruct (load_loop_from_init _ _ _ _ _ Hl).
  - intros φ rsb' s s' Hinj Hsim Hl Hl'.
    rewrite sab_load_entities_eq in Hl, Hl'.
    pose proof (load_loop_sim_init reg φ _ _ v v rsb rsb' Hsim) as H.
    by rewrite Hl, Hl' in H.
  - intros φ rst' s s' Hinj Hsim Hl Hl'.
    rewrite sat_load_entities_eq in Hl, Hl'.
    pose proof (load_loop_sim_init reg φ _ _ v v rst rst' Hsim) as H.
    by rewrite Hl, Hl' in H.
Qed.

(** C7: the two encodings of one content load alike.  When the tokenizers
    give, for a binary and a text input, streams whose records agree pairwise
    on type name, numeric id and attribute pointer, and whose fields every
    class of the registry parses alike, the record identities of one stream
    being those of the other up to a one-to-one renaming, then
    [SabLoader.load] and [SatLoader.load] return the same result: the same
    exception, or the same list of bodies over the same store of nodes, with
    the same numeric ids and the same links. *)
Theorem encodings_load_alike parse_sab parse_sat reg φ b t v v' rsb rst :
  Inj (=) (=) φ →
  parse_sab b = inr (v, rsb) → parse_sat t = inr (v', rst) →
  Forall2 (record_sim SabDataParser SatDataParser reg φ v v') rsb rst →
  SabLoader.load parse_sab reg b = SatLoader.load parse_sat reg t ∧
  load parse_sab parse_sat reg (PyBytes b)
  = load parse_sab parse_sat reg (PyStr t).
Proof.
  intros Hinj Hb Ht Heq.
  assert (SabLoader.load parse_sab reg b = SatLoader.load parse_sat reg t) as H.
  { unfold SabLoader.load, SatLoader.load. rewrite Hb, Ht.
    rewrite sab_load_entities_eq, sat_load_entities_eq.
    pose proof (load_loop_sim_init reg φ _ _ v v' rsb rst Heq) as Hsim.
    destruct (load_loop SabDataParser reg rsb (Loader_init v)) as [e|s],
             (load_loop SatDataParser reg rst (Loader_init v')) as [e'|s'];
      try done; [by subst|].
    destruct Hsim as [-> ->]. done. }
  split; [exact H|]. exact H.
Qed.

(** ** Failure of a record *)

Lemma load_record_raises_in_parse {T} (mk : list T → Z → DataParser) reg r s e :
  load_record mk reg r s = inl e →
  ∃ o, heap (attach reg r s).2 !! (attach reg r s).1 = Some o ∧
       run_parse reg (attach reg r s).1
         (cls_parse (e_cls o) (mk (r_data r) (version (attach reg r s).2)))
         (attach reg r s).2 = inl e.
Proof.
  rewrite load_record_attach. unfold call_parse.
  destruct (heap (attach reg r s).2 !! (attach reg r s).1) as [o|]; [|done].
  intros H. by exists o.
Qed.

Lemma load_record_parse_raises {T} (mk : list T → Z → DataParser)
    reg r s entity s3 o e :
  attach reg r s = (entity, s3) → heap s3 !! entity = Some o →
  run_parse reg entity (cls_parse (e_cls o) (mk (r_data r) (version s3))) s3
  = inl e →
  load_record mk reg r s = inl e.
Proof.
  intros Ha Ho Hp. rewrite load_record_attach, Ha. simpl.
  unfold call_parse. by rewrite Ho.
Qed.

(** C8: a record whose [parse] raises fails the load.  When the records
    before it are processed, the loop body has found or created the record's
    node [entity] and assigned its [id] and [attributes], and the [parse] of
    the node's class, run on the record's data, raises [e], then the loop
    body, [load_entities], the loader's [load] and the entry point [load] all
    end with that same [e]: no list of bodies is returned.  Conversely the
    loop body raises only in this way. *)
Theorem failing_record_fails_the_load parse_sab parse_sat reg v :
  (∀ data pre r post s entity s3 o e,
     parse_sab data = inr (v, pre ++ r :: post) →
     SabLoader.load_entities reg pre (Loader_init v) = inr s →
     attach reg r s = (entity, s3) → heap s3 !! entity = Some o →
     run_parse reg entity
       (cls_parse (e_cls o) (SabDataParser (r_data r) (version s3))) s3
     = inl e →
     SabLoader.load_entity reg r s = inl e ∧
     SabLoader.load_entities reg (pre ++ r :: post) (Loader_init v) = inl e ∧
     SabLoader.load parse_sab reg data = inl e ∧
     load parse_sab parse_sat reg (PyBytes data) = inl e ∧
     load parse_sab parse_sat reg (PyByteArray data) = inl e) ∧
  (∀ data pre r post s entity s3 o e,
     parse_sat data = inr (v, pre ++ r :: post) →
     SatLoader.load_entities reg pre (Loader_init v) = inr s →
     attach reg r s = (entity, s3) → heap s3 !! entity = Some o →
     run_parse reg entity
       (cls_parse (e_cls o) (SatDataParser (r_data r) (version s3))) s3
     = inl e →
     SatLoader.load_entity reg r s = inl e ∧
     SatLoader.load_entities reg (pre ++ r :: post) (Loader_init v) = inl e ∧
     SatLoader.load parse_sat reg data = inl e ∧
     load parse_sab parse_sat reg (PyStr data) = inl e) ∧
  (∀ (r : SabEntity) s e, SabLoader.load_entity reg r s = inl e →
     ∃ entity s3 o, attach reg r s = (entity, s3) ∧ heap s3 !! entity = Some o ∧
       run_parse reg entity
         (cls_parse (e_cls o) (SabDataParser (r_data r) (version s3))) s3
       = inl e) ∧
  (∀ (r : SatEntity) s e, SatLoader.load_entity reg r s = inl e →
     ∃ entity s3 o, attach reg r s = (entity, s3) ∧ heap s3 !! entity = Some o ∧
       run_parse reg entity
         (cls_parse (e_cls o) (SatDataParser (r_data r) (version s3))) s3
       = inl e).
Proof.
  split; [|split; [|split]].
  - intros data pre r post s entity s3 o e Hd Hpre Ha Ho Hp.
    pose proof (load_record_parse_raises SabDataParser reg r s _ _ _ _
                  Ha Ho Hp) as Hr.
    split; [by rewrite sab_load_entity_eq|].
    assert (SabLoader.load_entities reg (pre ++ r :: post) (Loader_init v)
            = inl e) as H.
    { rewrite sab_load_entities_eq in Hpre.
      rewrite sab_load_entities_eq, load_loop_app, Hpre. simpl.
      by rewrite Hr. }
    split; [exact H|].
    assert (SabLoader.load parse_sab reg data = inl e) as H'.
    { unfold SabLoader.load. by rewrite Hd, H. }
    split; [exact H'|]. split; exact H'.
  - intros data pre r post s entity s3 o e Hd Hpre Ha Ho Hp.
    pose proof (load_record_parse_raises SatDataParser reg r s _ _ _ _
                  Ha Ho Hp) as Hr.
    split; [by rewrite sat_load_entity_eq|].
    assert (SatLoader.load_entities reg (pre ++ r :: post) (Loader_init v)
            = inl e) as H.
    { rewrite sat_load_entities_eq in Hpre.
      rewrite sat_load_entities_eq, load_loop_app, Hpre. simpl.
      by rewrite Hr. }
    split; [exact H|].
    assert (SatLoader.load parse_sat reg data = inl e) as H'.
    { unfold SatLoader.load. by rewrite Hd, H. }
    split; exact H'.
  - intros r s e Hr. rewrite sab_load_entity_eq in Hr.
    destruct (load_record_raises_in_parse _ _ _ _ _ Hr) as (o & Ho & Hp).
    destruct (attach reg r s) as [entity s3]. by exists entity, s3, o.
  - intros r s e Hr. rewrite sat_load_entity_eq in Hr.
    destruct (load_record_raises_in_parse _ _ _ _ _ Hr) as (o & Ho & Hp).
    destruct (attach reg r s) as [entity s3]. by exists entity, s3, o.
Qed.

(** ** The claims at concrete streams *)

Lemma bodies_exactly_the_Body_nodes_witness :
  ∃ s s',
    SabLoader.load_entities ENTITY_TYPES
      [mkRaw 101 "body" 0 NullPtr []; mkRaw 102 "unknown-xyz" 1 NullPtr [];
       mkRaw 103 "body" 2 NullPtr []] (Loader_init 700) = inr s ∧
    SabLoader.load_entities ENTITY_TYPES
      [mkRaw 1101 "body" 0 NullPtr []; mkRaw 1102 "unknown-xyz" 1 NullPtr [];
       mkRaw 1103 "body" 2 NullPtr []] (Loader_init 700) = inr s' ∧
    Inj (=) (=) (λ u, u + 1000) ∧
    Forall2 (record_sim SabDataParser SabDataParser ENTITY_TYPES
               (λ u, u + 1000) 700 700)
      [mkRaw 101 "body" 0 NullPtr []; mkRaw 102 "unknown-xyz" 1 NullPtr [];
       mkRaw 103 "body" 2 NullPtr []]
      [mkRaw 1101 "body" 0 NullPtr []; mkRaw 1102 "unknown-xyz" 1 NullPtr [];
       mkRaw 1103 "body" 2 NullPtr []] ∧
    bodies s = [0; 2] ∧
    (∀ e, e ∈ bodies s ↔
          ∃ o, heap s !! e = Some o ∧ cls_is_body (e_cls o) = true) ∧
    NoDup (bodies s) ∧
    bodies s' = bodies s.
Proof.
  eexists _, _. split; [reflexivity|]. split; [reflexivity|].
  assert (Inj (=) (=) (λ u, u + 1000)) as Hinj.
  { intros x y Hxy. lia. }
  assert (Forall2 (record_sim SabDataParser SabDataParser ENTITY_TYPES
                     (λ u, u + 1000) 700 700)
      [mkRaw 101 "body" 0 NullPtr []; mkRaw 102 "unknown-xyz" 1 NullPtr [];
       mkRaw 103 "body" 2 NullPtr []]
      [mkRaw 1101 "body" 0 NullPtr []; mkRaw 1102 "unknown-xyz" 1 NullPtr [];
       mkRaw 1103 "body" 2 NullPtr []]) as Hsim.
  { constructor; [|constructor; [|constructor; [|constructor]]];
      (split; [reflexivity|]); (split; [reflexivity|]);
      (split; [reflexivity|]); (split; [exact I|]);
      intros c [-> | ->]%base_registry_known; apply sim_done. }
  split; [exact Hinj|]. split; [exact Hsim|]. split; [reflexivity|].
  destruct (bodies_exactly_the_Body_nodes ENTITY_TYPES 700
              [mkRaw 101 "body" 0 NullPtr [];
               mkRaw 102 "unknown-xyz" 1 NullPtr [];
               mkRaw 103 "body" 2 NullPtr []] []) as (H1 & _ & H3 & _).
  destruct (H1 _ eq_refl) as (Hin & _ & Hnd).
  split; [exact Hin|]. split; [exact Hnd|].
  exact (proj1 (H3 _ _ _ _ Hinj Hsim eq_refl eq_refl)).
Defined.

Lemma referenced_only_node_has_no_id_witness :
  ∃ s e o,
    SabLoader.load_entities (register Face ENTITY_TYPES)
      [mkRaw 101 "face" 5 NullPtr [SabPtr (Ptr 99 "loop")]] (Loader_init 700)
    = inr s ∧
    dict_get 99 (entities s) = Some e ∧ heap s !! e = Some o ∧
    (∀ r : SabEntity,
       r ∈ [mkRaw 101 "face" 5 NullPtr [SabPtr (Ptr 99 "loop")]] → r_uid r ≠ 99) ∧
    e_id o = None ∧ read_id o = inl (AttributeError "id").
Proof.
  eexists _, _, _.
  split; [reflexivity|]. split; [reflexivity|]. split; [reflexivity|].
  assert (∀ r : SabEntity,
            r ∈ [mkRaw 101 "face" 5 NullPtr [SabPtr (Ptr 99 "loop")]] →
            r_uid r ≠ 99) as Hnot.
  { intros r Hr. apply list_elem_of_singleton in Hr. subst r. discriminate. }
  split; [exact Hnot|].
  exact (proj1 (referenced_only_node_has_no_id (register Face ENTITY_TYPES) 700
                  [mkRaw 101 "face" 5 NullPtr [SabPtr (Ptr 99 "loop")]] [])
           _ 99 _ _ eq_refl eq_refl eq_refl Hnot).
Defined.

(** The classes used to exercise the loader assign the one attribute
    [loop]. *)
Lemma never_stores_Face_loop key p :
  key ≠ "loop" → never_stores key (Face_loop p).
Proof.
  intros Hne. destruct p as [[|uid name]|]; simpl; try constructor.
  intros r. constructor; [done|constructor].
Qed.

Lemma keeps_base key o : e_cls o = AcisEntity ∨ e_cls o = Body → keeps key o.
Proof. intros [Hc|Hc] args; rewrite Hc; constructor. Qed.

Lemma keeps_Face key o : key ≠ "loop" → e_cls o = Face → keeps key o.
Proof.
  intros Hne Hc args. rewrite Hc. simpl.
  destruct args as [[|[t|p] ?] ?|[|[t|p] ?] ?];
    first [exact (never_stores_Face_loop key (Some p) Hne)
          | exact (never_stores_Face_loop key None Hne)].
Qed.

Lemma null_pointer_leaves_attributes_absent_witness :
  identity_keyed
    [mkRaw 101 "body" 0 (Ptr 102 "face") [SatTok "$-1"];
     mkRaw 102 "face" 1 NullPtr [SatPtr (Ptr 103 "loop")]] ∧
  ∃ s, SatLoader.load_entities (register Face ENTITY_TYPES)
         [mkRaw 101 "body" 0 (Ptr 102 "face") [SatTok "$-1"];
          mkRaw 102 "face" 1 NullPtr [SatPtr (Ptr 103 "loop")]]
         (Loader_init 700)
       = inr s ∧
       ∃ e o, dict_get 102 (entities s) = Some e ∧ heap s !! e = Some o ∧
              e_cls o = Face ∧ keeps "attributes" o ∧ e_attributes o = None.
Proof.
  assert (identity_keyed
            [mkRaw 101 "body" 0 (Ptr 102 "face") [SatTok "$-1"];
             mkRaw 102 "face" 1 NullPtr [SatPtr (Ptr 103 "loop")]]) as Hkey.
  { intros r r' Hr Hr' Hu.
    apply elem_of_cons in Hr as [->|Hr], Hr' as [->|Hr'];
      try apply list_elem_of_singleton in Hr;
      try apply list_elem_of_singleton in Hr'; subst;
      first [reflexivity | discriminate Hu]. }
  split; [exact Hkey|]. eexists. split; [reflexivity|].
  assert (mkRaw 102 "face" 1 NullPtr [SatPtr (Ptr 103 "loop")]
          ∈ [mkRaw 101 "body" 0 (Ptr 102 "face") [SatTok "$-1"];
             mkRaw 102 "face" 1 NullPtr [SatPtr (Ptr 103 "loop")]]) as Hin.
  { apply elem_of_cons. right. apply elem_of_cons. by left. }
  destruct (proj2 (null_pointer_leaves_attributes_absent
                     (register Face ENTITY_TYPES) 700 [] _)
              _ _ Hkey eq_refl Hin eq_refl) as (e & o & He & Ho & Hnone).
  exists e, o. split; [exact He|]. split; [exact Ho|].
  assert (e_cls o = Face) as Hc.
  { vm_compute in He. injection He as <-.
    vm_compute in Ho. injection Ho as <-. reflexivity. }
  split; [exact Hc|].
  assert (keeps "attributes" o) as Hk by (by apply keeps_Face).
  split; [exact Hk | exact (Hnone Hk)].
Defined.

Lemma known_with_Face c :
  known (register Face ENTITY_TYPES) c → c = AcisEntity ∨ c = Body ∨ c = Face.
Proof.
  intros [->|[k Hk]]; [by left|]. unfold register in Hk.
  apply lookup_insert_Some in Hk as [[_ <-]|[_ Hk]]; [right; by right|].
  destruct (base_registry_known c) as [->| ->];
    [right; by exists k | by left | right; by left].
Qed.

Lemma encodings_load_alike_witness :
  Inj (=) (=) (λ u, u + 1000) ∧
  Forall2 (record_sim SabDataParser SatDataParser (register Face ENTITY_TYPES)
             (λ u, u + 1000) 700 400)
    [mkRaw 101 "body" 0 NullPtr []; mkRaw 102 "face" 1 NullPtr [SabPtr (Ptr 99 "loop")]]
    [mkRaw 1101 "body" 0 NullPtr []; mkRaw 1102 "face" 1 NullPtr [SatPtr (Ptr 1099 "loop")]] ∧
  SabLoader.load
    (λ _, inr (700%Z, [mkRaw 101 "body" 0 NullPtr [];
                     mkRaw 102 "face" 1 NullPtr [SabPtr (Ptr 99 "loop")]]))
    (register Face ENTITY_TYPES) []
  = SatLoader.load
      (λ _, inr (400%Z, [mkRaw 1101 "body" 0 NullPtr [];
                       mkRaw 1102 "face" 1 NullPtr [SatPtr (Ptr 1099 "loop")]]))
      (register Face ENTITY_TYPES) "".
Proof.
  assert (Inj (=) (=) (λ u, u + 1000)) as Hinj.
  { intros x y Hxy. lia. }
  assert (Forall2 (record_sim SabDataParser SatDataParser
                     (register Face ENTITY_TYPES) (λ u, u + 1000) 700 400)
    [mkRaw 101 "body" 0 NullPtr []; mkRaw 102 "face" 1 NullPtr [SabPtr (Ptr 99 "loop")]]
    [mkRaw 1101 "body" 0 NullPtr []; mkRaw 1102 "face" 1 NullPtr [SatPtr (Ptr 1099 "loop")]]) as Heq.
  { constructor; [|constructor; [|constructor]].
    - split; [reflexivity|]. split; [reflexivity|]. split; [reflexivity|].
      split; [exact I|].
      intros c [->|[->| ->]]%known_with_Face; simpl;
        first [apply sim_done | apply sim_raise].
    - split; [reflexivity|]. split; [reflexivity|]. split; [reflexivity|].
      split; [exact I|].
      intros c [->|[->| ->]]%known_with_Face; simpl; try apply sim_done.
      apply (sim_factory (λ u, u + 1000) 99). intros r.
      apply sim_set_field, sim_done. }
  split; [exact Hinj|]. split; [exact Heq|].
  exact (proj1 (encodings_load_alike _ _ (register Face ENTITY_TYPES)
                  (λ u, u + 1000) [] "" 700 400 _ _ Hinj eq_refl eq_refl Heq)).
Defined.

Lemma failing_record_fails_the_load_witness :
  ∃ s entity s3 o,
    SabLoader.load_entities (register Face ENTITY_TYPES)
      [mkRaw 101 "body" 0 NullPtr []] (Loader_init 700) = inr s ∧
    attach (register Face ENTITY_TYPES)
      (mkRaw 102 "face" 1 NullPtr [] : SabEntity) s = (entity, s3) ∧
    heap s3 !! entity = Some o ∧
    run_parse (register Face ENTITY_TYPES) entity
      (cls_parse (e_cls o) (SabDataParser [] (version s3))) s3
    = inl (FormatError "face: expected a loop pointer") ∧
    SabLoader.load_entity (register Face ENTITY_TYPES)
      (mkRaw 102 "face" 1 NullPtr []) s
    = inl (FormatError "face: expected a loop pointer") ∧
    load (λ _, inr (700%Z, [mkRaw 101 "body" 0 NullPtr [];
                          mkRaw 102 "face" 1 NullPtr [];
                          mkRaw 103 "body" 2 NullPtr []]))
      (λ _, inl (FormatError "sat")) (register Face ENTITY_TYPES) (PyBytes [])
    = inl (FormatError "face: expected a loop pointer").
Proof.
  eexists _, _, _, _. split; [reflexivity|]. split; [reflexivity|].
  split; [reflexivity|]. split; [reflexivity|].
  destruct (proj1
    (failing_record_fails_the_load
       (λ _, inr (700%Z, [mkRaw 101 "body" 0 NullPtr [];
                        mkRaw 102 "face" 1 NullPtr [];
                        mkRaw 103 "body" 2 NullPtr []]))
       (λ _, inl (FormatError "sat")) (register Face ENTITY_TYPES) 700)
    [] [mkRaw 101 "body" 0 NullPtr []] (mkRaw 102 "face" 1 NullPtr [])
    [mkRaw 103 "body" 2 NullPtr []] _ _ _ _ _
    eq_refl eq_refl eq_refl eq_refl eq_refl) as (H1 & _ & _ & H4 & _).
  split; [exact H1 | exact H4].
Defined.

(** * Further properties of the loader *)

(** X1: every record's node carries the record's numeric id.  After
    [load_entities] of either loader over a stream whose records are told
    apart by their identity, the node memoized for a record of the stream has
    that record's [id], and reading it succeeds, provided the [parse] of the
    node's class does not itself assign [self.id] (the loader assigns the id
    before it calls [parse]). *)
Theorem record_node_carries_its_id reg v rsb rst :
  (∀ s r, identity_keyed rsb →
     SabLoader.load_entities reg rsb (Loader_init v) = inr s → r ∈ rsb →
     ∃ e o, dict_get (r_uid r) (entities s) = Some e ∧
            heap s !! e = Some o ∧
            (keeps "id" o →
             e_id o = Some (VInt (r_id r)) ∧
             read_id o = inr (VInt (r_id r)))) ∧
  (∀ s r, identity_keyed rst →
     SatLoader.load_entities reg rst (Loader_init v) = inr s → r ∈ rst →
     ∃ e o, dict_get (r_uid r) (entities s) = Some e ∧
            heap s !! e = Some o ∧
            (keeps "id" o →
             e_id o = Some (VInt (r_id r)) ∧
             read_id o = inr (VInt (r_id r)))).
Proof.
  assert (∀ T (mk : list T → Z → DataParser) rs s r,
    identity_keyed rs → load_loop mk reg rs (Loader_init v) = inr s →
    r ∈ rs →
    ∃ e o, dict_get (r_uid r) (entities s) = Some e ∧
           heap s !! e = Some o ∧
           (keeps "id" o →
            e_id o = Some (VInt (r_id r)) ∧
            read_id o = inr (VInt (r_id r)))) as H.
  { intros T mk rs s r Hkey Hl Hr.
    destruct (load_loop_stamped_init mk reg rs v s Hkey Hl r Hr)
      as (e & o & He & Ho & Hst).
    exists e, o. split; [done|]. split; [done|]. intros Hk.
    assert (e_id o = Some (VInt (r_id r))) as Hi.
    { unfold e_id. by rewrite (Hst _ Hk), stamp_id. }
    split; [done|]. unfold read_id. by rewrite Hi. }
  split; intros s r Hkey Hl.
  - rewrite sab_load_entities_eq in Hl. by eapply H.
  - rewrite sat_load_entities_eq in Hl. by eapply H.
Qed.

Lemma record_node_carries_its_id_witness :
  identity_keyed
    [mkRaw 101 "face" 7 NullPtr [SabPtr (Ptr 102 "body")];
     mkRaw 102 "body" 9 NullPtr []] ∧
  ∃ s e o,
    SabLoader.load_entities (register Face ENTITY_TYPES)
      [mkRaw 101 "face" 7 NullPtr [SabPtr (Ptr 102 "body")];
       mkRaw 102 "body" 9 NullPtr []] (Loader_init 700) = inr s ∧
    dict_get 101 (entities s) = Some e ∧ heap s !! e = Some o ∧
    e_cls o = Face ∧ keeps "id" o ∧
    e_id o = Some (VInt 7) ∧ read_id o = inr (VInt 7).
Proof.
  assert (identity_keyed
            [mkRaw 101 "face" 7 NullPtr [SabPtr (Ptr 102 "body")];
             mkRaw 102 "body" 9 NullPtr []]) as Hkey.
  { intros r r' Hr Hr' Hu.
    apply elem_of_cons in Hr as [->|Hr], Hr' as [->|Hr'];
      try apply list_elem_of_singleton in Hr;
      try apply list_elem_of_singleton in Hr'; subst;
      first [reflexivity | discriminate Hu]. }
  split; [exact Hkey|].
  destruct (proj1 (record_node_carries_its_id (register Face ENTITY_TYPES) 700
                     [mkRaw 101 "face" 7 NullPtr [SabPtr (Ptr 102 "body")];
                      mkRaw 102 "body" 9 NullPtr []] [])
              _ (mkRaw 101 "face" 7 NullPtr [SabPtr (Ptr 102 "body")])
              Hkey eq_refl)
    as (e & o & H1 & H2 & H3).
  { apply elem_of_cons. by left. }
  eexists _, e, o. split; [reflexivity|]. split; [exact H1|].
  split; [exact H2|].
  assert (e_cls o = Face) as Hc.
  { vm_compute in H1. injection H1 as <-.
    vm_compute in H2. injection H2 as <-. reflexivity. }
  split; [exact Hc|].
  assert (keeps "id" o) as Hk by (by apply keeps_Face).
  split; [exact Hk | exact (H3 Hk)].
Defined.

(** X2: an [attributes] link of the loader always points to the node that
    carries it.  After [load_entities] of either loader, a node whose
    [attributes] is set has itself as the value; over a stream whose records
    are told apart by their identity, this is the case of the node of every
    record with a non-null attribute pointer (the loop resolves the record's
    own identity, not the pointer's).  Both hold of the nodes whose [parse]
    does not itself assign [self.attributes]. *)
Theorem attributes_link_points_to_own_node reg v rsb rst :
  (∀ s, SabLoader.load_entities reg rsb (Loader_init v) = inr s →
     (∀ e o a, heap s !! e = Some o → keeps "attributes" o →
               e_attributes o = Some a → a = VRef e) ∧
     (identity_keyed rsb →
      ∀ r, r ∈ rsb → is_null_ptr (r_attributes r) = false →
           ∃ e o, dict_get (r_uid r) (entities s) = Some e ∧
                  heap s !! e = Some o ∧
                  (keeps "attributes" o → e_attributes o = Some (VRef e)))) ∧
  (∀ s, SatLoader.load_entities reg rst (Loader_init v) = inr s →
     (∀ e o a, heap s !! e = Some o → keeps "attributes" o →
               e_attributes o = Some a → a = VRef e) ∧
     (identity_keyed rst →
      ∀ r, r ∈ rst → is_null_ptr (r_attributes r) = false →
           ∃ e o, dict_get (r_uid r) (entities s) = Some e ∧
                  heap s !! e = Some o ∧
                  (keeps "attributes" o → e_attributes o = Some (VRef e)))).
Proof.
  assert (∀ T (mk : list T → Z → DataParser) rs s,
    load_loop mk reg rs (Loader_init v) = inr s →
    (∀ e o a, heap s !! e = Some o → keeps "attributes" o →
              e_attributes o = Some a → a = VRef e) ∧
    (identity_keyed rs →
     ∀ r, r ∈ rs → is_null_ptr (r_attributes r) = false →
          ∃ e o, dict_get (r_uid r) (entities s) = Some e ∧
                 heap s !! e = Some o ∧
                 (keeps "attributes" o → e_attributes o = Some (VRef e))))
    as H.
  { intros T mk rs s Hl. split.
    - intros e o a Ho Hk Ha. by eapply attributes_link_is_self.
    - intros Hkey r Hr Hn.
      destruct (load_loop_stamped_init mk reg rs v s Hkey Hl r Hr)
        as (e & o & He & Ho & Hst).
      exists e, o. split; [done|]. split; [done|]. intros Hk.
      unfold e_attributes. by rewrite (Hst _ Hk), stamp_attributes, Hn. }
  split; intros s Hl.
  - rewrite sab_load_entities_eq in Hl. by apply (H _ SabDataParser).
  - rewrite sat_load_entities_eq in Hl. by apply (H _ SatDataParser).
Qed.

Lemma attributes_link_points_to_own_node_witness :
  ∃ s o,
    SatLoader.load_entities (register Face ENTITY_TYPES)
      [mkRaw 101 "face" 0 (Ptr 102 "attrib") [SatPtr (Ptr 103 "loop")];
       mkRaw 102 "attrib" 1 NullPtr []] (Loader_init 700) = inr s ∧
    heap s !! 0 = Some o ∧ e_cls o = Face ∧ keeps "attributes" o ∧
    e_attributes o = Some (VRef 0) ∧ VRef 0 = VRef 0.
Proof.
  eexists _, _. split; [reflexivity|]. split; [reflexivity|].
  split; [reflexivity|].
  assert (keeps "attributes"
            (set_field "loop" (VRef 1)
               (set_attributes 0 (set_id 0 (new Face))))) as Hk
    by (by apply keeps_Face).
  split; [exact Hk|]. split; [reflexivity|].
  exact (proj1 (proj2 (attributes_link_points_to_own_node
                         (register Face ENTITY_TYPES) 700 []
                         [mkRaw 101 "face" 0 (Ptr 102 "attrib")
                            [SatPtr (Ptr 103 "loop")];
                          mkRaw 102 "attrib" 1 NullPtr []]) _ eq_refl)
           0 _ (VRef 0) eq_refl Hk eq_refl).
Defined.

(** ** Streams of distinct records under an inert registry *)

Lemma load_record_fresh_inert {T} (mk : list T → Z → DataParser) reg r s :
  inert reg → dict_get (r_uid r) (entities s) = None →
  load_record mk reg r s =
  inr {| heap := heap s ++ [node_of reg (length (heap s)) r];
         entities := entities s ++ [(r_uid r, length (heap s))];
         version := version s |}.
Proof.
  intros Hin Hu. rewrite load_record_attach, attach_fresh by done. simpl.
  unfold call_parse. simpl. rewrite list_lookup_middle by done. simpl.
  unfold node_of at 1. rewrite stamp_cls. simpl.
  rewrite (Hin _ (known_default reg (r_name r))). done.
Qed.

Lemma load_loop_fresh_inert {T} (mk : list T → Z → DataParser) reg rs :
  inert reg → ∀ s,
  NoDup (r_uid <$> rs) →
  (∀ r, r ∈ rs → dict_get (r_uid r) (entities s) = None) →
  load_loop mk reg rs s =
  inr {| heap := heap s ++ imap (λ i r, node_of reg (length (heap s) + i) r) rs;
         entities :=
           entities s ++ imap (λ i r, (r_uid r, length (heap s) + i)) rs;
         version := version s |}.
Proof.
  intros Hin. induction rs as [|r rs IH]; intros s Hnd Hfresh; simpl.
  - rewrite !app_nil_r. by destruct s.
  - apply NoDup_cons in Hnd as [Hr Hnd].
    rewrite load_record_fresh_inert; [|done|apply Hfresh; by left].
    rewrite IH; [|done|].
    + simpl. rewrite length_app. simpl. rewrite <- !app_assoc. simpl.
      rewrite Nat.add_0_r. f_equal. f_equal.
      * f_equal. f_equal. apply imap_ext. intros i x _. simpl.
        f_equal. lia.
      * f_equal. f_equal. apply imap_ext. intros i x _. simpl.
        f_equal. lia.
    + intros r' Hr'. simpl. rewrite dict_get_app.
      rewrite (Hfresh r') by by right. simpl.
      rewrite decide_False; [done|]. intros Heq. apply Hr.
      rewrite <- Heq. by apply list_elem_of_fmap_2.
Qed.

(** X3: under a registry whose classes all inherit the [parse] of
    [AcisEntity], a stream of distinct records loads into one node per record,
    in stream order: node [i] has the class registered for the name of record
    [i] (the generic class when there is none), that record's numeric id, and
    itself as [attributes] when the record's pointer is not null; the
    dictionary maps the identity of record [i] to node [i].  In particular the
    empty stream gives the empty store. *)
Theorem distinct_records_load_one_node_each reg v rsb rst :
  inert reg →
  (NoDup (r_uid <$> rsb) →
   SabLoader.load_entities reg rsb (Loader_init v)
   = inr {| heap := imap (node_of reg) rsb;
            entities := imap (λ i r, (r_uid r, i)) rsb;
            version := v |}) ∧
  (NoDup (r_uid <$> rst) →
   SatLoader.load_entities reg rst (Loader_init v)
   = inr {| heap := imap (node_of reg) rst;
            entities := imap (λ i r, (r_uid r, i)) rst;
            version := v |}).
Proof.
  intros Hin. split; intros Hnd.
  - rewrite sab_load_entities_eq.
    by rewrite (load_loop_fresh_inert SabDataParser reg rsb Hin
                  (Loader_init v) Hnd).
  - rewrite sat_load_entities_eq.
    by rewrite (load_loop_fresh_inert SatDataParser reg rst Hin
                  (Loader_init v) Hnd).
Qed.

Lemma inert_ENTITY_TYPES : inert ENTITY_TYPES.
Proof. by intros c [-> | ->]%base_registry_known args. Qed.

Lemma distinct_records_load_one_node_each_witness :
  inert ENTITY_TYPES ∧
  NoDup (r_uid <$> ([mkRaw 101 "body" 4 (Ptr 102 "attrib") [SabTok 2 []];
                     mkRaw 102 "attrib" 5 NullPtr []] : list SabEntity)) ∧
  SabLoader.load_entities ENTITY_TYPES
    [mkRaw 101 "body" 4 (Ptr 102 "attrib") [SabTok 2 []];
     mkRaw 102 "attrib" 5 NullPtr []] (Loader_init 700)
  = inr {| heap := [set_attributes 0 (set_id 4 (new Body));
                    set_id 5 (new AcisEntity)];
           entities := [(101, 0); (102, 1)];
           version := 700 |}.
Proof.
  assert (NoDup (r_uid <$> ([mkRaw 101 "body" 4 (Ptr 102 "attrib") [SabTok 2 []];
                             mkRaw 102 "attrib" 5 NullPtr []]
                            : list SabEntity))) as Hnd.
  { simpl. apply NoDup_cons. split; [|apply NoDup_singleton].
    intros H%list_elem_of_singleton. discriminate H. }
  split; [exact inert_ENTITY_TYPES|]. split; [exact Hnd|].
  exact (proj1 (distinct_records_load_one_node_each ENTITY_TYPES 700 _ []
                  inert_ENTITY_TYPES) Hnd).
Defined.

Lemma ENTITY_TYPES_lookup name :
  ENTITY_TYPES !! name = if decide (name = "body") then Some Body else None.
Proof.
  unfold ENTITY_TYPES, register. simpl. rewrite lookup_insert.
  destruct (decide ("body" = name)) as [<-|Hne].
  - by rewrite decide_True.
  - rewrite decide_False by done. apply lookup_empty.
Qed.

Lemma module_registry_load {T} (mk : list T → Z → DataParser) rs v :
  NoDup (r_uid <$> rs) →
  ∃ s, load_loop mk ENTITY_TYPES rs (Loader_init v) = inr s ∧
       length (heap s) = length rs ∧
       (∀ e, e ∈ bodies s ↔ ∃ r, rs !! e = Some r ∧ r_name r = "body") ∧
       (∀ e r, rs !! e = Some r →
          ∃ o, heap s !! e = Some o ∧ e_id o = Some (VInt (r_id r)) ∧
               read_type o = VStr (if decide (r_name r = "body") then "body"
                                   else "unsupported-entity")).
Proof.
  intros Hnd.
  pose proof (load_loop_fresh_inert mk ENTITY_TYPES rs inert_ENTITY_TYPES
                (Loader_init v) Hnd) as Hl.
  simpl in Hl. specialize (Hl (λ _ _, eq_refl)).
  eexists. split; [exact Hl|]. simpl.
  split; [by rewrite length_imap|]. split.
  - intros e.
    destruct (bodies_wf _ (wf_load_loop _ _ _ _ _ (wf_init v) Hl)) as (Hb & _).
    rewrite Hb. simpl. setoid_rewrite list_lookup_imap. split.
    + intros (o & Ho & Hbody). destruct (rs !! e) as [r|]; [|done].
      exists r. split; [done|]. injection Ho as <-.
      unfold node_of in Hbody. rewrite stamp_cls in Hbody. simpl in Hbody.
      rewrite ENTITY_TYPES_lookup in Hbody. by case_decide.
    + intros (r & -> & Hn). eexists. split; [done|].
      unfold node_of. rewrite stamp_cls. simpl.
      rewrite ENTITY_TYPES_lookup. by rewrite decide_True.
  - intros e r Hr. rewrite list_lookup_imap, Hr. simpl.
    eexists. split; [done|]. unfold node_of.
    split; [unfold e_id; apply stamp_id|].
    unfold read_type. rewrite stamp_other, stamp_cls by done. simpl.
    rewrite lookup_empty, ENTITY_TYPES_lookup. simpl. by case_decide.
Qed.

(** X4: what [load] returns with the registry of the module.  For an input
    that the tokenizer splits into distinct records, [load] returns without an
    exception; the store has one node per record, at the record's position;
    the returned list holds exactly the positions of the records named "body";
    and each node has its record's numeric id and reads "body" or
    "unsupported-entity" as its type. *)
Theorem module_registry_load_returns_body_records parse_sab parse_sat :
  (∀ data v rs, parse_sab data = inr (v, rs) → NoDup (r_uid <$> rs) →
     ∃ bs h,
       load parse_sab parse_sat ENTITY_TYPES (PyBytes data) = inr (bs, h) ∧
       length h = length rs ∧
       (∀ e, e ∈ bs ↔ ∃ r, rs !! e = Some r ∧ r_name r = "body") ∧
       (∀ e r, rs !! e = Some r →
          ∃ o, h !! e = Some o ∧ e_id o = Some (VInt (r_id r)) ∧
               read_type o = VStr (if decide (r_name r = "body") then "body"
                                   else "unsupported-entity"))) ∧
  (∀ data v rs, parse_sat data = inr (v, rs) → NoDup (r_uid <$> rs) →
     ∃ bs h,
       load parse_sab parse_sat ENTITY_TYPES (PyStr data) = inr (bs, h) ∧
       length h = length rs ∧
       (∀ e, e ∈ bs ↔ ∃ r, rs !! e = Some r ∧ r_name r = "body") ∧
       (∀ e r, rs !! e = Some r →
          ∃ o, h !! e = Some o ∧ e_id o = Some (VInt (r_id r)) ∧
               read_type o = VStr (if decide (r_name r = "body") then "body"
                                   else "unsupported-entity"))).
Proof.
  split; intros data v rs Hd Hnd.
  - destruct (module_registry_load SabDataParser rs v Hnd)
      as (s & Hl & Hlen & Hb & Hn).
    exists (bodies s), (heap s). split; [|done].
    simpl. unfold SabLoader.load. by rewrite Hd, sab_load_entities_eq, Hl.
  - destruct (module_registry_load SatDataParser rs v Hnd)
      as (s & Hl & Hlen & Hb & Hn).
    exists (bodies s), (heap s). split; [|done].
    simpl. unfold SatLoader.load. by rewrite Hd, sat_load_entities_eq, Hl.
Qed.

Lemma module_registry_load_returns_body_records_witness :
  NoDup (r_uid <$> ([mkRaw 101 "lump" 4 NullPtr []; mkRaw 102 "body" 5 NullPtr []]
                    : list SatEntity)) ∧
  ∃ h, load (λ _, inl (FormatError "sab"))
         (λ _, inr (700%Z, [mkRaw 101 "lump" 4 NullPtr [];
                           mkRaw 102 "body" 5 NullPtr []]))
         ENTITY_TYPES (PyStr "700 0 1 0") = inr ([1], h) ∧
       length h = 2.
Proof.
  assert (NoDup (r_uid <$> ([mkRaw 101 "lump" 4 NullPtr [];
                             mkRaw 102 "body" 5 NullPtr []]
                            : list SatEntity))) as Hnd.
  { simpl. apply NoDup_cons. split; [|apply NoDup_singleton].
    intros H%list_elem_of_singleton. discriminate H. }
  split; [exact Hnd|].
  destruct (proj2 (module_registry_load_returns_body_records
                     (λ _, inl (FormatError "sab"))
                     (λ _, inr (700%Z, [mkRaw 101 "lump" 4 NullPtr [];
                                       mkRaw 102 "body" 5 NullPtr []])))
              "700 0 1 0" 700%Z _ eq_refl Hnd) as (bs & h & Hl & Hlen & _).
  exists h. split; [|exact Hlen].
  rewrite Hl. f_equal. f_equal.
  injection Hl as <- _. reflexivity.
Defined.

(** ** Loads that cannot fail *)

Lemma run_parse_total reg self_ p :
  never_raises p → ∀ s, ∃ s', run_parse reg self_ p s = inr s'.
Proof.
  induction 1 as [|u ty k Hk IH|key v k Hk IH]; intros s; simpl.
  - by eexists.
  - destruct (get_entity reg u ty s) as [r s1]. apply IH.
  - apply IH.
Qed.

Lemma load_loop_total {T} (mk : list T → Z → DataParser) reg rs :
  (∀ c, known reg c → ∀ args, never_raises (cls_parse c args)) →
  ∀ D s, wf s → tracked reg D s → ∃ s', load_loop mk reg rs s = inr s'.
Proof.
  intros Hnr. induction rs as [|r rs IH]; intros D s Hwf Ht; simpl;
    [by eexists|].
  assert (∃ s1, load_record mk reg r s = inr s1) as [s1 Hr].
  { rewrite load_record_attach.
    destruct (attach reg r s) as [entity s3] eqn:Ha. simpl.
    destruct (attach_inv reg D _ _ _ _ Hwf Ht Ha) as (Hwf3 & _ & Ht3 & _).
    unfold call_parse. destruct (heap s3 !! entity) as [o|] eqn:Ho;
      [|by eexists].
    apply run_parse_total, Hnr. by eapply tracked_known. }
  rewrite Hr.
  destruct (load_record_inv reg mk D _ _ _ Hwf Ht Hr) as (Hwf1 & _ & Ht1 & _).
  by eapply IH.
Qed.

(** X5: a load raises only through a [parse].  When no [parse] of a class of
    the registry, nor that of the generic class, raises on any path, then
    [load_entities] of either loader completes for every stream and format
    version, and [load] returns a list of bodies whenever the tokenizer
    returns records. *)
Theorem load_completes_when_no_parse_raises parse_sab parse_sat reg :
  (∀ c, known reg c → ∀ args, never_raises (cls_parse c args)) →
  (∀ rs v, ∃ s, SabLoader.load_entities reg rs (Loader_init v) = inr s) ∧
  (∀ rs v, ∃ s, SatLoader.load_entities reg rs (Loader_init v) = inr s) ∧
  (∀ data v rs, parse_sab data = inr (v, rs) →
     ∃ res, load parse_sab parse_sat reg (PyBytes data) = inr res) ∧
  (∀ data v rs, parse_sat data = inr (v, rs) →
     ∃ res, load parse_sab parse_sat reg (PyStr data) = inr res).
Proof.
  intros Hnr.
  assert (∀ rs v, ∃ s, SabLoader.load_entities reg rs (Loader_init v) = inr s)
    as Hsab.
  { intros rs v. setoid_rewrite sab_load_entities_eq.
    eapply load_loop_total; [done|apply wf_init|].
    apply (tracked_init _ (λ _, False)). }
  assert (∀ rs v, ∃ s, SatLoader.load_entities reg rs (Loader_init v) = inr s)
    as Hsat.
  { intros rs v. setoid_rewrite sat_load_entities_eq.
    eapply load_loop_total; [done|apply wf_init|].
    apply (tracked_init _ (λ _, False)). }
  split; [done|]. split; [done|]. split.
  - intros data v rs Hd. destruct (Hsab rs v) as [s Hs].
    eexists. simpl. unfold SabLoader.load. by rewrite Hd, Hs.
  - intros data v rs Hd. destruct (Hsat rs v) as [s Hs].
    eexists. simpl. unfold SatLoader.load. by rewrite Hd, Hs.
Qed.

Lemma never_raises_Face_loop p : never_raises (Face_loop (Some p)).
Proof.
  destruct p as [|u n]; simpl; [apply nr_done|].
  apply nr_factory. intros r. apply nr_set_field, nr_done.
Qed.

Lemma never_raises_with_Shell c args :
  known (register Shell ENTITY_TYPES) c → never_raises (cls_parse c args).
Proof.
  intros [->|[k Hk]]; [apply nr_done|]. unfold register in Hk.
  apply lookup_insert_Some in Hk as [[_ <-]|[_ Hk]].
  - destruct args as [[|[] ?] ?|[|[] ?] ?]; simpl;
      first [apply nr_done | apply never_raises_Face_loop].
  - rewrite (inert_ENTITY_TYPES c); [apply nr_done|]. right. by exists k.
Qed.

Lemma load_completes_when_no_parse_raises_witness :
  (∀ c, known (register Shell ENTITY_TYPES) c →
        ∀ args, never_raises (cls_parse c args)) ∧
  ∃ res, load (λ _, inr (700%Z, [mkRaw 101 "shell" 4 NullPtr
                                   [SabPtr (Ptr 102 "face")];
                                 mkRaw 103 "body" 5 NullPtr []]))
           (λ _, inl (FormatError "sat")) (register Shell ENTITY_TYPES)
           (PyBytes [])
         = inr res.
Proof.
  assert (∀ c, known (register Shell ENTITY_TYPES) c →
               ∀ args, never_raises (cls_parse c args)) as Hnr.
  { intros c Hc args. by apply never_raises_with_Shell. }
  split; [exact Hnr|].
  exact (proj1 (proj2 (proj2 (load_completes_when_no_parse_raises
           (λ _, inr (700%Z, [mkRaw 101 "shell" 4 NullPtr
                                [SabPtr (Ptr 102 "face")];
                              mkRaw 103 "body" 5 NullPtr []]))
           (λ _, inl (FormatError "sat")) (register Shell ENTITY_TYPES) Hnr)))
           [] 700%Z _ eq_refl).
Defined.

(** ** The registry and the factory *)

(** X6: registrations are local to their type name, and the registry is read
    only when a node is constructed.  Registering a class changes the result
    of [get_entity] for no other type name; for an identity that is already
    memoized, [get_entity] answers the same under any registry and type name;
    and registrations under different type names commute. *)
Theorem register_is_local_to_its_name c reg :
  (∀ uid ty s, ty ≠ cls_type c →
     get_entity (register c reg) uid ty s = get_entity reg uid ty s) ∧
  (∀ reg' uid ty ty' s e, dict_get uid (entities s) = Some e →
     get_entity (register c reg) uid ty s = get_entity reg' uid ty' s) ∧
  (∀ c', cls_type c ≠ cls_type c' →
     register c (register c' reg) = register c' (register c reg)).
Proof.
  split; [|split].
  - intros uid ty s Hne. unfold get_entity, register.
    by rewrite lookup_insert_ne.
  - intros reg' uid ty ty' s e Hu.
    by rewrite !(get_entity_hit _ _ _ _ e).
  - intros c' Hne. unfold register. by apply insert_insert_ne.
Qed.

Lemma register_is_local_to_its_name_witness :
  "body" ≠ cls_type Face ∧
  get_entity (register Face ENTITY_TYPES) 7 "body" (Loader_init 700)
  = get_entity ENTITY_TYPES 7 "body" (Loader_init 700) ∧
  cls_type Face ≠ cls_type Body ∧
  register Face (register Body ∅) = register Body (register Face ∅).
Proof.
  assert ("body" ≠ cls_type Face) as H1 by discriminate.
  assert (cls_type Face ≠ cls_type Body) as H2 by discriminate.
  destruct (register_is_local_to_its_name Face ENTITY_TYPES) as (Ha & _ & _).
  destruct (register_is_local_to_its_name Face ∅) as (_ & _ & Hc).
  split; [exact H1|]. split; [exact (Ha 7 "body" (Loader_init 700) H1)|].
  split; [exact H2 | exact (Hc Body H2)].
Defined.

(** X7: the first mention of an identity fixes its node.  A record whose
    identity is already memoized (a reference resolved it before the record
    itself came up) is loaded into that node: no other node is made for it, it
    keeps the class chosen when it was created, whatever the record's own type
    name is, and it receives the record's numeric id (which stays unless the
    [parse] of that class assigns [self.id] itself). *)
Theorem first_mention_fixes_the_node reg v :
  (∀ (pre : list SabEntity) r s s' e o,
     SabLoader.load_entities reg pre (Loader_init v) = inr s →
     dict_get (r_uid r) (entities s) = Some e → heap s !! e = Some o →
     SabLoader.load_entity reg r s = inr s' →
     ∃ o', dict_get (r_uid r) (entities s') = Some e ∧
           heap s' !! e = Some o' ∧ e_cls o' = e_cls o ∧
           (keeps "id" o → e_id o' = Some (VInt (r_id r)))) ∧
  (∀ (pre : list SatEntity) r s s' e o,
     SatLoader.load_entities reg pre (Loader_init v) = inr s →
     dict_get (r_uid r) (entities s) = Some e → heap s !! e = Some o →
     SatLoader.load_entity reg r s = inr s' →
     ∃ o', dict_get (r_uid r) (entities s') = Some e ∧
           heap s' !! e = Some o' ∧ e_cls o' = e_cls o ∧
           (keeps "id" o → e_id o' = Some (VInt (r_id r)))).
Proof.
  assert (∀ T (mk : list T → Z → DataParser) pre r s s' e o,
    load_loop mk reg pre (Loader_init v) = inr s →
    dict_get (r_uid r) (entities s) = Some e → heap s !! e = Some o →
    load_record mk reg r s = inr s' →
    ∃ o', dict_get (r_uid r) (entities s') = Some e ∧
          heap s' !! e = Some o' ∧ e_cls o' = e_cls o ∧
          (keeps "id" o → e_id o' = Some (VInt (r_id r)))) as H.
  { intros T mk pre r s s' e o Hl Hu Ho Hr.
    pose proof (wf_load_loop _ _ _ _ _ (wf_init v) Hl) as Hwf.
    destruct (load_record_effect _ _ _ _ _ Hwf Hr)
      as (e1 & o1 & o' & Hu1 & Ho' & Hc & Hcase & Hkey & _).
    rewrite Hu in Hcase. destruct Hcase as [-> Ho1].
    rewrite Ho in Ho1. injection Ho1 as <-.
    exists o'. split; [done|]. split; [done|]. split; [done|].
    intros Hk. unfold e_id. by rewrite (Hkey _ Hk), stamp_id. }
  split; intros pre r s s' e o Hl Hu Ho Hr.
  - rewrite sab_load_entities_eq in Hl. rewrite sab_load_entity_eq in Hr.
    by eapply H.
  - rewrite sat_load_entities_eq in Hl. rewrite sat_load_entity_eq in Hr.
    by eapply H.
Qed.

Lemma first_mention_fixes_the_node_witness :
  ∃ s s' o o',
    SabLoader.load_entities (register Shell ENTITY_TYPES)
      [mkRaw 101 "shell" 4 NullPtr [SabPtr (Ptr 102 "lump")]] (Loader_init 700)
    = inr s ∧
    dict_get 102 (entities s) = Some 1 ∧ heap s !! 1 = Some o ∧
    SabLoader.load_entity (register Shell ENTITY_TYPES)
      (mkRaw 102 "body" 5 NullPtr []) s = inr s' ∧
    dict_get 102 (entities s') = Some 1 ∧ heap s' !! 1 = Some o' ∧
    e_cls o' = e_cls o ∧ keeps "id" o ∧ e_id o' = Some (VInt 5) ∧
    e_cls o = AcisEntity ∧ bodies s' = [].
Proof.
  eexists _, _, _, _. split; [reflexivity|]. split; [reflexivity|].
  split; [reflexivity|]. split; [reflexivity|].
  destruct (proj1 (first_mention_fixes_the_node (register Shell ENTITY_TYPES) 700)
              [mkRaw 101 "shell" 4 NullPtr [SabPtr (Ptr 102 "lump")]]
              (mkRaw 102 "body" 5 NullPtr []) _ _ 1 _
              eq_refl eq_refl eq_refl eq_refl)
    as (o' & H1 & H2 & H3 & H4).
  split; [exact H1|]. split; [reflexivity|]. split; [reflexivity|].
  assert (keeps "id" (new AcisEntity)) as Hk
    by (apply keeps_base; by left).
  split; [exact Hk|]. split; [reflexivity|]. split; reflexivity.
Defined.

(** X8: a record of a registered type gets a node of that type.  In a
    registry filled through [register], which every registry made from the
    empty one by [register] is, a record whose type name is registered and
    whose identity has not been resolved before is loaded into an instance of
    the registered class, and the node's [type] reads the record's type name
    unless the [parse] of the class assigns [self.type] itself. *)
Theorem registered_type_name_is_kept reg v :
  well_keyed reg →
  (∀ (pre : list SabEntity) r s s' c,
     SabLoader.load_entities reg pre (Loader_init v) = inr s →
     reg !! r_name r = Some c → dict_get (r_uid r) (entities s) = None →
     SabLoader.load_entity reg r s = inr s' →
     ∃ e o', dict_get (r_uid r) (entities s') = Some e ∧
             heap s' !! e = Some o' ∧ e_cls o' = c ∧
             ((∀ args, never_stores "type" (cls_parse c args)) →
              read_type o' = VStr (r_name r))) ∧
  (∀ (pre : list SatEntity) r s s' c,
     SatLoader.load_entities reg pre (Loader_init v) = inr s →
     reg !! r_name r = Some c → dict_get (r_uid r) (entities s) = None →
     SatLoader.load_entity reg r s = inr s' →
     ∃ e o', dict_get (r_uid r) (entities s') = Some e ∧
             heap s' !! e = Some o' ∧ e_cls o' = c ∧
             ((∀ args, never_stores "type" (cls_parse c args)) →
              read_type o' = VStr (r_name r))) ∧
  well_keyed ENTITY_TYPES ∧
  (∀ c, well_keyed (register c reg)).
Proof.
  intros Hkeyed.
  assert (∀ reg0 c, well_keyed reg0 → well_keyed (register c reg0)) as Hreg.
  { intros reg0 c H0 k c' Hk. unfold register in Hk.
    apply lookup_insert_Some in Hk as [[<- <-]|[_ Hk]]; [done|by apply H0]. }
  assert (∀ T (mk : list T → Z → DataParser) pre r s s' c,
    load_loop mk reg pre (Loader_init v) = inr s →
    reg !! r_name r = Some c → dict_get (r_uid r) (entities s) = None →
    load_record mk reg r s = inr s' →
    ∃ e o', dict_get (r_uid r) (entities s') = Some e ∧
            heap s' !! e = Some o' ∧ e_cls o' = c ∧
            ((∀ args, never_stores "type" (cls_parse c args)) →
             read_type o' = VStr (r_name r))) as H.
  { intros T mk pre r s s' c Hl Hc Hu Hr.
    pose proof (wf_load_loop _ _ _ _ _ (wf_init v) Hl) as Hwf.
    destruct (load_record_effect _ _ _ _ _ Hwf Hr)
      as (e & o1 & o' & Hu1 & Ho' & Hcls & Hcase & Hkey & _).
    rewrite Hu in Hcase. destruct Hcase as [_ ->].
    rewrite Hc in Hcls, Hkey. simpl in Hcls, Hkey.
    exists e, o'. split; [done|]. split; [done|]. split; [done|].
    intros Hk. unfold read_type.
    rewrite (Hkey _ Hk), stamp_other by done. simpl.
    rewrite lookup_empty, Hcls. simpl. f_equal. by apply Hkeyed. }
  split; [|split; [|split]].
  - intros pre r s s' c Hl Hc Hu Hr.
    rewrite sab_load_entities_eq in Hl. rewrite sab_load_entity_eq in Hr.
    by eapply H.
  - intros pre r s s' c Hl Hc Hu Hr.
    rewrite sat_load_entities_eq in Hl. rewrite sat_load_entity_eq in Hr.
    by eapply H.
  - apply Hreg. intros k c Hk. by rewrite lookup_empty in Hk.
  - intros c. by apply Hreg.
Qed.

Lemma registered_type_name_is_kept_witness :
  well_keyed (register Face ENTITY_TYPES) ∧
  (∀ args, never_stores "type" (cls_parse Face args)) ∧
  ∃ s' e o',
    SatLoader.load_entity (register Face ENTITY_TYPES)
      (mkRaw 101 "face" 4 NullPtr [SatPtr (Ptr 102 "loop")]) (Loader_init 400)
    = inr s' ∧
    dict_get 101 (entities s') = Some e ∧ heap s' !! e = Some o' ∧
    e_cls o' = Face ∧ read_type o' = VStr "face".
Proof.
  assert (well_keyed ENTITY_TYPES) as H0.
  { intros k c Hk. unfold ENTITY_TYPES, register in Hk.
    apply lookup_insert_Some in Hk as [[<- <-]|[_ Hk]]; [reflexivity|].
    by rewrite lookup_empty in Hk. }
  assert (well_keyed (register Face ENTITY_TYPES)) as H1.
  { exact (proj2 (proj2 (proj2 (registered_type_name_is_kept ENTITY_TYPES 400
             H0))) Face). }
  split; [exact H1|].
  assert (∀ args, never_stores "type" (cls_parse Face args)) as Hns.
  { exact (keeps_Face "type" (new Face) ltac:(discriminate) eq_refl). }
  split; [exact Hns|].
  destruct (proj1 (proj2 (registered_type_name_is_kept
                            (register Face ENTITY_TYPES) 400 H1))
              [] (mkRaw 101 "face" 4 NullPtr [SatPtr (Ptr 102 "loop")])
              (Loader_init 400) _ Face eq_refl eq_refl eq_refl eq_refl)
    as (e & o' & Hu & Ho & Hc & Ht).
  eexists _, e, o'. split; [reflexivity|]. split; [exact Hu|].
  split; [exact Ho|]. split; [exact Hc | exact (Ht Hns)].
Defined.

(** ** The body list along a load *)

Lemma ext_heap_length s s' : ext s s' → length (heap s) ≤ length (heap s').
Proof.
  intros (_ & _ & Hh).
  destruct (decide (length (heap s) = 0)) as [->|Hne]; [lia|].
  destruct (lookup_lt_is_Some_2 (heap s) (length (heap s) - 1)) as [o1 Ho1];
    [lia|].
  destruct (Hh _ _ Ho1) as (o' & Ho' & _). apply lookup_lt_Some in Ho'. lia.
Qed.

Lemma bodies_prefix s s' :
  wf s → wf s' → ext s s' → bodies s `prefix_of` bodies s'.
Proof.
  intros [_ Hv] [_ Hv'] Hext. pose proof (ext_heap_length _ _ Hext) as Hlen.
  destruct Hext as (_ & _ & Hh). unfold bodies. rewrite Hv, Hv'.
  replace (length (heap s')) with
    (length (heap s) + (length (heap s') - length (heap s))) by lia.
  rewrite seq_app, filter_app. eexists. f_equal.
  apply filter_ext_elem. intros e He. apply elem_of_seq in He.
  unfold isinstance_Body.
  destruct (lookup_lt_is_Some_2 (heap s) e) as [o Ho]; [lia|].
  destruct (Hh _ _ Ho) as (o' & Ho' & Hc). by rewrite Ho, Ho', Hc.
Qed.

(** X9: the body list only grows at its end.  The bodies found after a
    prefix of a stream are an initial segment of the bodies found after the
    whole stream, and the store never shrinks: later records neither remove a
    body nor reorder the bodies before them, nor turn a node into a body. *)
Theorem bodies_grow_at_the_end reg v :
  (∀ pre post s s',
     SabLoader.load_entities reg pre (Loader_init v) = inr s →
     SabLoader.load_entities reg (pre ++ post) (Loader_init v) = inr s' →
     bodies s `prefix_of` bodies s' ∧ length (heap s) ≤ length (heap s')) ∧
  (∀ pre post s s',
     SatLoader.load_entities reg pre (Loader_init v) = inr s →
     SatLoader.load_entities reg (pre ++ post) (Loader_init v) = inr s' →
     bodies s `prefix_of` bodies s' ∧ length (heap s) ≤ length (heap s')).
Proof.
  assert (∀ T (mk : list T → Z → DataParser) pre post s s',
    load_loop mk reg pre (Loader_init v) = inr s →
    load_loop mk reg (pre ++ post) (Loader_init v) = inr s' →
    bodies s `prefix_of` bodies s' ∧ length (heap s) ≤ length (heap s')) as H.
  { intros T mk pre post s s' Hl Hl'. rewrite load_loop_app, Hl in Hl'.
    pose proof (wf_load_loop _ _ _ _ _ (wf_init v) Hl) as Hwf.
    pose proof (wf_load_loop _ _ _ _ _ Hwf Hl') as Hwf'.
    pose proof (ext_load_loop _ _ _ _ _ Hl') as Hext.
    split; [by apply bodies_prefix | by apply ext_heap_length]. }
  split; intros pre post s s' Hl Hl'.
  - rewrite sab_load_entities_eq in Hl, Hl'. by eapply H.
  - rewrite sat_load_entities_eq in Hl, Hl'. by eapply H.
Qed.

Lemma bodies_grow_at_the_end_witness :
  ∃ s s',
    SabLoader.load_entities (register Shell ENTITY_TYPES)
      [mkRaw 101 "body" 4 NullPtr []] (Loader_init 700) = inr s ∧
    SabLoader.load_entities (register Shell ENTITY_TYPES)
      ([mkRaw 101 "body" 4 NullPtr []] ++
       [mkRaw 102 "shell" 5 NullPtr [SabPtr (Ptr 103 "body")];
        mkRaw 103 "body" 6 NullPtr []]) (Loader_init 700) = inr s' ∧
    bodies s = [0] ∧ bodies s' = [0; 2] ∧
    bodies s `prefix_of` bodies s'.
Proof.
  eexists _, _. split; [reflexivity|]. split; [reflexivity|].
  split; [reflexivity|]. split; [reflexivity|].
  exact (proj1 (proj1 (bodies_grow_at_the_end (register Shell ENTITY_TYPES) 700)
                  [mkRaw 101 "body" 4 NullPtr []]
                  [mkRaw 102 "shell" 5 NullPtr [SabPtr (Ptr 103 "body")];
                   mkRaw 103 "body" 6 NullPtr []] _ _ eq_refl eq_refl)).
Defined.
